(** * Health check of MCP servers (src/electron/main.ts)

    A shallow embedding of the three functions behind the
    ['ping-mcp-server'] IPC handler:

    - [checkCommandAvailability] (main.ts, lines 225-238),
    - [checkMCPServerConnection] (main.ts, lines 241-301),
    - the handler itself, called [pingServer] here (lines 197-213).

    The handler receives [server] with type [any], so the embedding works
    on dynamically typed values and follows the ECMAScript rules for
    property reads, truthiness, [parseInt] and method calls.  The host
    (the shell behind [child_process.exec] and the network behind
    [net.Socket]) is a parameter of the model. *)

From Stdlib Require Import ZArith List String Ascii Bool Lia.
Import ListNotations.

Local Open Scope string_scope.
Local Open Scope Z_scope.

(** ** Numbers

    [port] is a JavaScript number.  The only numbers the code ever builds
    are the literals [0] and [8080] and the results of [parseInt], so the
    values that can occur are NaN, the two infinities and integer-valued
    doubles.  [Num 0] stands for both zeros: [parseInt("-0")] is [-0], and
    the code only ever tests it with [!port], which is true of both. *)

Inductive number : Type :=
  | NaN
  | Infinity (negative : bool)
  | Num (z : Z).

Definition number_eqb (a b : number) : bool :=
  match a, b with
  | NaN, NaN => true
  | Infinity s, Infinity t => Bool.eqb s t
  | Num x, Num y => x =? y
  | _, _ => false
  end.

(** The Number value of a mathematical integer: round to nearest, ties to
    even, on a 53-bit significand; magnitudes from [2^1024] on overflow. *)
Definition roundToDouble (z : Z) : number :=
  let a := Z.abs z in
  let bits := Z.log2 a + 1 in
  if bits <=? 53 then Num z
  else
    let sh := bits - 53 in
    let q := Z.shiftr a sh in
    let r := Z.land a (Z.ones sh) in
    let half := Z.shiftl 1 (sh - 1) in
    let q' := if (half <? r) || ((r =? half) && Z.odd q) then q + 1 else q in
    let v := Z.shiftl q' sh in
    if 1024 <? Z.log2 v + 1 then Infinity (z <? 0) else Num (Z.sgn z * v).

(** [!port] *)
Definition falsyNumber (n : number) : bool :=
  match n with
  | NaN => true
  | Num 0 => true
  | _ => false
  end.

(** [isNaN(port)] *)
Definition isNaN (n : number) : bool :=
  match n with
  | NaN => true
  | _ => false
  end.

(** ** Strings

    A string is a sequence of code units; the model covers the code units
    below 256, one [ascii] each. *)

Definition codeUnit (c : ascii) : N := N_of_ascii c.

(** White space and line terminators skipped by [parseInt]: TAB, LF, VT,
    FF, CR, SP and NBSP. *)
Definition isWhiteSpace (c : ascii) : bool :=
  let n := codeUnit c in
  ((9 <=? n) && (n <=? 13) || (n =? 32) || (n =? 160))%N.

Definition isDigit (c : ascii) : bool :=
  let n := codeUnit c in
  ((48 <=? n) && (n <=? 57))%N.

Definition digitValue (c : ascii) : Z := Z.of_N (codeUnit c) - 48.

Fixpoint trimStart (s : string) : string :=
  match s with
  | String c r => if isWhiteSpace c then trimStart r else s
  | EmptyString => s
  end.

(** The digits at the front of [s], up to the first code unit that is not
    a decimal digit. *)
Fixpoint leadingDigits (s : string) : list Z :=
  match s with
  | String c r => if isDigit c then digitValue c :: leadingDigits r else []
  | EmptyString => []
  end.

Definition mathInt (ds : list Z) : Z :=
  fold_left (fun acc d => 10 * acc + d) ds 0.

(** [parseInt(s, 10)] on a string. *)
Definition parseIntString (s : string) : number :=
  let t := trimStart s in
  let '(negative, u) :=
    match t with
    | String "-" r => (true, r)
    | String "+" r => (false, r)
    | _ => (false, t)
    end in
  match leadingDigits u with
  | [] => NaN
  | ds => roundToDouble (if negative then - mathInt ds else mathInt ds)
  end.

(** [s.startsWith(p)], used to define [includes] and [split]. *)
Fixpoint startsWith (p s : string) : bool :=
  match p, s with
  | EmptyString, _ => true
  | String a p', String b s' => Ascii.eqb a b && startsWith p' s'
  | String _ _, EmptyString => false
  end.

(** [s.includes(p)] *)
Fixpoint includesString (p s : string) : bool :=
  startsWith p s ||
  match s with
  | String _ r => includesString p r
  | EmptyString => false
  end.

(** [s.split(sep)] for a separator of one code unit. *)
Fixpoint splitString (sep : ascii) (s : string) : list string :=
  match s with
  | EmptyString => [EmptyString]
  | String c r =>
      if Ascii.eqb c sep then EmptyString :: splitString sep r
      else
        match splitString sep r with
        | seg :: segs => String c seg :: segs
        | [] => [String c EmptyString]
        end
  end.

(** ** Values

    The fragment of JavaScript values a server definition read from the
    JSON configuration can be made of, without the number-valued fields:
    [undefined], [null], booleans, strings, arrays and plain objects.  An
    object is its list of own properties; a key is looked up from the
    front. *)

#[warnings="-register-all"]
Inductive value : Type :=
  | VUndefined
  | VNull
  | VBool (b : bool)
  | VString (s : string)
  | VArray (elements : list value)
  | VObject (properties : list (string * value)).

(** What a [throw] carries: an [Error] with its [message]. *)
Record Error : Type := mkError { errorName : string; message : string }.

Definition TypeError (msg : string) : Error := mkError "TypeError" msg.

(** A computation that returns or throws. *)
Inductive result (A : Type) : Type :=
  | Ok (a : A)
  | Throw (e : Error).
Arguments Ok {A} a.
Arguments Throw {A} e.

Definition bind {A B : Type} (r : result A) (k : A -> result B) : result B :=
  match r with
  | Ok a => k a
  | Throw e => Throw e
  end.

Notation "x <- r ;; k" := (bind r (fun x => k))
  (at level 61, r at next level, right associativity).

(** ToBoolean *)
Definition truthy (v : value) : bool :=
  match v with
  | VUndefined | VNull => false
  | VBool b => b
  | VString s => negb (String.eqb s "")
  | VArray _ | VObject _ => true
  end.

(** ToString; an array is its elements joined with commas, [null] and
    [undefined] elements giving the empty string. *)
Fixpoint ToString (v : value) : string :=
  match v with
  | VUndefined => "undefined"
  | VNull => "null"
  | VBool true => "true"
  | VBool false => "false"
  | VString s => s
  | VArray l =>
      let element (x : value) : string :=
        match x with
        | VUndefined | VNull => ""
        | _ => ToString x
        end in
      (fix join (l : list value) : string :=
         match l with
         | [] => ""
         | [x] => element x
         | x :: r => element x ++ "," ++ join r
         end) l
  | VObject _ => "[object Object]"
  end.

(** [parseInt(v, 10)] *)
Definition parseInt (v : value) : number := parseIntString (ToString v).

(** The property names main.ts reads from a definition.  None of them is
    a property of strings, booleans or arrays, own or inherited. *)
Inductive propertyName : Type := p_command | p_env | p_args | p_MCP_PORT.

Definition propertyKey (p : propertyName) : string :=
  match p with
  | p_command => "command"
  | p_env => "env"
  | p_args => "args"
  | p_MCP_PORT => "MCP_PORT"
  end.

Fixpoint lookup (k : string) (props : list (string * value)) : value :=
  match props with
  | [] => VUndefined
  | (k', v) :: r => if String.eqb k k' then v else lookup k r
  end.

(** [v.p]: reading a property of [undefined] or [null] throws. *)
Definition Get (v : value) (p : propertyName) : result value :=
  match v with
  | VUndefined =>
      Throw (TypeError ("Cannot read properties of undefined (reading '"
                          ++ propertyKey p ++ "')"))
  | VNull =>
      Throw (TypeError ("Cannot read properties of null (reading '"
                          ++ propertyKey p ++ "')"))
  | VObject props => Ok (lookup (propertyKey p) props)
  | VBool _ | VString _ | VArray _ => Ok VUndefined
  end.

(** [Array.isArray(v)] *)
Definition isArray (v : value) : bool :=
  match v with
  | VArray _ => true
  | _ => false
  end.

(** [v === s] for a string [s] *)
Definition strictEqualsString (v : value) (s : string) : bool :=
  match v with
  | VString t => String.eqb t s
  | _ => false
  end.

(** [x.includes(s)]: [String.prototype.includes] on a string,
    [Array.prototype.includes] on an array; nothing else in the fragment
    has a callable [includes]. *)
Definition includes (x : value) (s : string) : result bool :=
  match x with
  | VString t => Ok (includesString s t)
  | VArray l => Ok (existsb (fun y => strictEqualsString y s) l)
  | VUndefined =>
      Throw (TypeError "Cannot read properties of undefined (reading 'includes')")
  | VNull =>
      Throw (TypeError "Cannot read properties of null (reading 'includes')")
  | VBool _ | VObject _ =>
      Throw (TypeError "server.args[i].includes is not a function")
  end.

(** [x.split(sep)]: only strings have [split]. *)
Definition split (x : value) (sep : ascii) : result (list value) :=
  match x with
  | VString t => Ok (map VString (splitString sep t))
  | VUndefined =>
      Throw (TypeError "Cannot read properties of undefined (reading 'split')")
  | VNull =>
      Throw (TypeError "Cannot read properties of null (reading 'split')")
  | VBool _ | VArray _ | VObject _ =>
      Throw (TypeError "server.args[i].split is not a function")
  end.

(** [a[i]]: [undefined] past the end. *)
Definition elementAt (a : list value) (i : nat) : value := nth i a VUndefined.

(** ** Port inference (checkMCPServerConnection, lines 247-273) *)

(** Lines 250-253: [if (server.env && server.env.MCP_PORT)
    port = parseInt(server.env.MCP_PORT, 10)]. *)
Definition portFromEnv (server : value) (port : number) : result number :=
  env <- Get server p_env ;;
  if truthy env then
    mcpPort <- Get env p_MCP_PORT ;;
    if truthy mcpPort then Ok (parseInt mcpPort) else Ok port
  else Ok port.

(** Lines 257-267: the [for] loop over [server.args], entered at index [i]
    with [remaining] iterations left before [i] reaches the length.  Both
    matching branches end in [break]. *)
Fixpoint argsLoop (args : list value) (remaining : nat) (i : nat)
    (port : number) : result number :=
  match remaining with
  | O => Ok port
  | S remaining' =>
      hasEquals <- includes (elementAt args i) "--port=" ;;
      if hasEquals then
        parts <- split (elementAt args i) "=" ;;
        let portArg := elementAt parts 1 in
        Ok (parseInt portArg)
      else if strictEqualsString (elementAt args i) "--port"
              && (Z.of_nat i <? Z.of_nat (List.length args) - 1)
      then Ok (parseInt (elementAt args (i + 1)%nat))
      else argsLoop args remaining' (i + 1)%nat port
  end.

(** Lines 255-268: [if (!port && Array.isArray(server.args)) { for ... }]. *)
Definition portFromArgs (server : value) (port : number) : result number :=
  if falsyNumber port then
    args <- Get server p_args ;;
    match args with
    | VArray l => argsLoop l (List.length l) 0 port
    | _ => Ok port
    end
  else Ok port.

(** Lines 270-273: [if (!port || isNaN(port)) port = 8080]. *)
Definition defaultPort (port : number) : number :=
  if falsyNumber port || isNaN port then Num 8080 else port.

(** Lines 247-273 together: the port handed to [socket.connect]. *)
Definition inferPort (server : value) : result number :=
  let port := Num 0 in
  port <- portFromEnv server port ;;
  port <- portFromArgs server port ;;
  Ok (defaultPort port).

(** ** The host *)

(** The events of a socket that the probe listens to. *)
Inductive socketEvent : Type := ev_connect | ev_timeout | ev_error.

(** What [exec(line, callback)] does: throw before spawning anything, call
    back with an error or with [null], or never call back. *)
Inductive execOutcome : Type :=
  | ExecThrows (e : Error)
  | ExecCallback (error : option Error)
  | ExecNoCallback.

(** What [socket.connect(port, host)] does: it may throw on the spot (Node
    validates the port before dialling), and the socket then emits
    events, in this order, to whoever listens. *)
Record connectOutcome : Type := mkConnectOutcome {
  thrown : option Error;
  emitted : list socketEvent
}.

Record Host : Type := mkHost {
  platform : string;
  exec : string -> execOutcome;
  netConnect : number -> string -> connectOutcome
}.

(** ** Promises and the trace of effects *)

Inductive promiseState (A : Type) : Type :=
  | Pending
  | Fulfilled (a : A)
  | Rejected (e : Error).
Arguments Pending {A}.
Arguments Fulfilled {A} a.
Arguments Rejected {A} e.

(** Who called [resolve]: one of the three listeners or the [catch] block
    of the executor. *)
Inductive resolver : Type :=
  | byListener (ev : socketEvent)
  | byCatch.

Inductive effect : Type :=
  | Exec (commandLine : string)
  | ProbeCalled
  | NewSocket
  | SetTimeout (ms : Z)
  | SocketConnect (port : number) (host : string)
  | SocketDestroy
  | Resolve (who : resolver) (b : bool).

(** The state of one call of [checkMCPServerConnection]: the promise it
    returned, who settled it, the socket, and what happened so far. *)
Record probe : Type := mkProbe {
  settled : promiseState bool;
  settledBy : option resolver;
  dialled : option number;
  destroyed : bool;
  trace : list effect
}.

Definition newProbe : probe :=
  mkProbe Pending None None false [ProbeCalled].

Definition record (e : effect) (st : probe) : probe :=
  mkProbe (settled st) (settledBy st) (dialled st) (destroyed st)
          (trace st ++ [e]).

(** [resolve(b)]: settles a pending promise and does nothing to a settled
    one. *)
Definition resolve (who : resolver) (b : bool) (st : probe) : probe :=
  match settled st with
  | Pending =>
      mkProbe (Fulfilled b) (Some who) (dialled st) (destroyed st)
              (trace st ++ [Resolve who b])
  | _ => record (Resolve who b) st
  end.

(** What the [Promise] constructor does with an executor that throws. *)
Definition reject (e : Error) (st : probe) : probe :=
  match settled st with
  | Pending =>
      mkProbe (Rejected e) (settledBy st) (dialled st) (destroyed st) (trace st)
  | _ => st
  end.

(** [socket.destroy()] *)
Definition destroy (st : probe) : probe :=
  mkProbe (settled st) (settledBy st) (dialled st) true
          (trace st ++ [SocketDestroy]).

(** ** The probe (checkMCPServerConnection, lines 241-301) *)

(** [socket.connect(port, 'localhost')] seen from the probe: the call is
    recorded, and from here on the socket has a port it was asked to dial. *)
Definition dial (port : number) (st : probe) : probe :=
  mkProbe (settled st) (settledBy st) (Some port) (destroyed st)
          (trace st ++ [SocketConnect port "localhost"]).

(** The three listeners of lines 280-293; each destroys the socket and
    then calls [resolve]. *)
Definition listener (ev : socketEvent) (st : probe) : probe :=
  match ev with
  | ev_connect => resolve (byListener ev_connect) true (destroy st)
  | ev_timeout => resolve (byListener ev_timeout) false (destroy st)
  | ev_error => resolve (byListener ev_error) false (destroy st)
  end.

(** Lines 246-295: the body of the [try] block. *)
Definition executorTry (h : Host) (server : value) (st : probe)
    : result unit * probe :=
  match inferPort server with
  | Throw e => (Throw e, st)
  | Ok port =>
      let st := record NewSocket st in
      let st := record (SetTimeout 1000) st in
      let st := dial port st in
      match thrown (netConnect h port "localhost") with
      | Some e => (Throw e, st)
      | None => (Ok tt, st)
      end
  end.

(** Lines 246-299: [try { ... } catch (error) { resolve(false) }]. *)
Definition executor (h : Host) (server : value) (st : probe)
    : result unit * probe :=
  match executorTry h server st with
  | (Throw _, st') => (Ok tt, resolve byCatch false st')
  | (Ok u, st') => (Ok u, st')
  end.

(** [new Promise(executor)]: an executor that throws rejects the promise. *)
Definition newPromise (run : probe -> result unit * probe) : probe :=
  match run newProbe with
  | (Ok _, st) => st
  | (Throw e, st) => reject e st
  end.

(** The events of the socket reach the listeners one after the other. *)
Definition deliver (evs : list socketEvent) (st : probe) : probe :=
  fold_left (fun st ev => listener ev st) evs st.

Definition checkMCPServerConnection (h : Host) (server : value) : probe :=
  let st := newPromise (executor h server) in
  match dialled st with
  | Some port => deliver (emitted (netConnect h port "localhost")) st
  | None => st
  end.

(** ** checkCommandAvailability (lines 225-238) *)

Definition checkCommandAvailability (h : Host) (command : value)
    : promiseState bool * list effect :=
  let cmd := if String.eqb (platform h) "win32" then "where" else "which" in
  let line := cmd ++ " " ++ ToString command in
  (match exec h line with
   | ExecThrows e => Rejected e
   | ExecCallback (Some _) => Fulfilled false
   | ExecCallback None => Fulfilled true
   | ExecNoCallback => Pending
   end,
   [Exec line]).

(** ** pingServer (the 'ping-mcp-server' handler, lines 197-213) *)

Record HealthCheckResult : Type := mkResult {
  success : bool;
  error : option string
}.

(** How the body of an [async] function ends: it returns, it throws, or
    it waits for ever on a promise that never settles. *)
Inductive completion (A : Type) : Type :=
  | Returned (a : A)
  | Threw (e : Error)
  | Awaiting.
Arguments Returned {A} a.
Arguments Threw {A} e.
Arguments Awaiting {A}.

(** Lines 199-208: the body of the [try] block. *)
Definition pingServerTry (h : Host) (server : value)
    : completion HealthCheckResult * list effect :=
  match Get server p_command with
  | Throw e => (Threw e, [])
  | Ok command =>
      let '(available, t) := checkCommandAvailability h command in
      match available with
      | Rejected e => (Threw e, t)
      | Pending => (Awaiting, t)
      | Fulfilled isCommandAvailable =>
          if negb isCommandAvailable then
            (Returned (mkResult false (Some "Command not available")), t)
          else
            let st := checkMCPServerConnection h server in
            match settled st with
            | Rejected e => (Threw e, (t ++ trace st)%list)
            | Pending => (Awaiting, (t ++ trace st)%list)
            | Fulfilled pingSuccess =>
                (Returned (mkResult pingSuccess None), (t ++ trace st)%list)
            end
      end
  end.

(** [try { body } catch (error) { handler }] *)
Definition tryCatch {A : Type} (body : completion A * list effect)
    (handler : Error -> completion A) : completion A * list effect :=
  match body with
  | (Threw e, t) => (handler e, t)
  | (c, t) => (c, t)
  end.

(** The promise an [async] function hands to its caller. *)
Definition asyncResult {A : Type} (c : completion A) : promiseState A :=
  match c with
  | Returned a => Fulfilled a
  | Threw e => Rejected e
  | Awaiting => Pending
  end.

Definition pingServer (h : Host) (serverId : string) (server : value)
    : promiseState HealthCheckResult * list effect :=
  let '(c, t) :=
    tryCatch (pingServerTry h server)
      (fun e => Returned (mkResult false (Some (message e)))) in
  (asyncResult c, t).

(** ** Server definitions that conform to the data model

    [command] a string, [args] a sequence of strings, [env] absent or a
    mapping from strings to strings. *)

Record ServerDefinition : Type := mkServer {
  command : string;
  args : list string;
  env : option (list (string * string))
}.

Definition toValue (d : ServerDefinition) : value :=
  VObject
    (("command", VString (command d))
     :: ("args", VArray (map VString (args d)))
     :: match env d with
        | Some e => [("env", VObject (map (fun kv => (fst kv, VString (snd kv))) e))]
        | None => []
        end).

(** A host in the style of Node on a Unix machine: [which] finds the
    commands of [installed], ports outside 0..65535 make [connect] throw,
    the ports of [listening] accept and every other port refuses. *)
Definition validPort (port : number) : bool :=
  match port with
  | Num z => (0 <=? z) && (z <=? 65535)
  | _ => false
  end.

Definition nodeHost (installed : list string) (listening : list Z) : Host :=
  mkHost "linux"
    (fun line =>
       if existsb (fun c => String.eqb line ("which " ++ c)) installed
       then ExecCallback None
       else ExecCallback (Some (mkError "Error" ("Command failed: " ++ line))))
    (fun port _ =>
       if validPort port then
         if existsb (number_eqb port) (map Num listening)
         then mkConnectOutcome None [ev_connect]
         else mkConnectOutcome None [ev_error]
       else
         mkConnectOutcome
           (Some (mkError "RangeError" "Port should be >= 0 and < 65536."))
           [ev_timeout]).

(** ** Vocabulary of the properties *)

(** The loop of [argsLoop] read off the elements still ahead: [rest] is
    what is left of [server.args] from index [i] on. *)
Fixpoint scanArgs (rest : list value) (port : number) : result number :=
  match rest with
  | [] => Ok port
  | x :: later =>
      hasEquals <- includes x "--port=" ;;
      if hasEquals then
        parts <- split x "=" ;;
        Ok (parseInt (elementAt parts 1))
      else if strictEqualsString x "--port"
              && negb (Nat.eqb (List.length later) 0)
      then Ok (parseInt (elementAt later 0))
      else scanArgs later port
  end.

(** An element of the shape [...--port=...]. *)
Definition oneToken (x : value) : bool :=
  match x with
  | VString s => includesString "--port=" s
  | _ => false
  end.

(** A string element that has neither port-specifier shape. *)
Definition plain (x : value) : bool :=
  match x with
  | VString s => negb (includesString "--port=" s) && negb (String.eqb s "--port")
  | _ => false
  end.

(** An element the scan stops at, given the elements after it. *)
Definition isSpecifier (x : value) (later : list value) : bool :=
  oneToken x
  || (strictEqualsString x "--port" && negb (Nat.eqb (List.length later) 0)).

(** [server.args[i].split('=')[1]] on a string element. *)
Definition portArgOf (s : string) : value :=
  elementAt (map VString (splitString "=" s)) 1.

(** The number the scan reads at a specifier. *)
Definition specifierValue (x : value) (later : list value) : number :=
  match x with
  | VString s =>
      if includesString "--port=" s then parseInt (portArgOf s)
      else parseInt (elementAt later 0)
  | _ => parseInt (elementAt later 0)
  end.

(** The first binding of a key in the [env] of a conforming definition. *)
Fixpoint envLookup (k : string) (e : list (string * string)) : option string :=
  match e with
  | [] => None
  | (k', v) :: r => if String.eqb k k' then Some v else envLookup k r
  end.

Definition mcpPortOf (d : ServerDefinition) : option string :=
  match env d with
  | Some e => envLookup "MCP_PORT" e
  | None => None
  end.

(** [env.MCP_PORT] gives no usable port: rule 1 leaves [port] at 0 or
    makes it NaN. *)
Definition noPortFromEnv (server : value) : Prop :=
  exists p, portFromEnv server (Num 0) = Ok p /\ falsyNumber p = true.

(** The line [checkCommandAvailability] hands to the shell. *)
Definition resolverLine (h : Host) (command : value) : string :=
  (if String.eqb (platform h) "win32" then "where" else "which")
    ++ " " ++ ToString command.

(** The shell of the host cannot resolve [server.command]. *)
Definition commandUnavailable (h : Host) (server : value) : Prop :=
  exists cmd err,
    Get server p_command = Ok cmd /\
    exec h (resolverLine h cmd) = ExecCallback (Some err).

Definition commandAvailable (h : Host) (server : value) : Prop :=
  exists cmd,
    Get server p_command = Ok cmd /\
    exec h (resolverLine h cmd) = ExecCallback None.

(** [e] is thrown in the handler's own code or in the availability check,
    outside the probe. *)
Definition faultOutsideProbe (h : Host) (server : value) (e : Error) : Prop :=
  Get server p_command = Throw e \/
  exists cmd,
    Get server p_command = Ok cmd /\ exec h (resolverLine h cmd) = ExecThrows e.

(** [e] is thrown inside the executor of the probe, which runs only when
    the command is available. *)
Definition faultInsideProbe (h : Host) (server : value) (e : Error) : Prop :=
  commandAvailable h server /\
  (inferPort server = Throw e \/
   exists port,
     inferPort server = Ok port /\
     thrown (netConnect h port "localhost") = Some e).

(** [e] is thrown somewhere during the call. *)
Definition faultRaised (h : Host) (server : value) (e : Error) : Prop :=
  faultOutsideProbe h server e \/ faultInsideProbe h server e.

(** [socket.connect] does not get through: it throws, or the first event
    of the socket is not [connect]. *)
Definition connectFails (o : connectOutcome) : Prop :=
  thrown o <> None \/
  exists ev evs, emitted o = ev :: evs /\ ev <> ev_connect.

(** What the listener of [ev] passes to [resolve]. *)
Definition eventResult (ev : socketEvent) : bool :=
  match ev with
  | ev_connect => true
  | ev_timeout | ev_error => false
  end.

(** No call of [resolve] in a trace. *)
Definition unresolved (t : list effect) : Prop :=
  forall who b, ~ In (Resolve who b) t.

(** The socket as the executor leaves it once [connect] was called. *)
Definition dialling (port : number) : probe :=
  dial port (record (SetTimeout 1000) (record NewSocket newProbe)).

(** ** JSON.stringify

    [JSON.stringify(value, null, space)] on the values of the fragment;
    the properties of an object are listed in the order JavaScript
    enumerates them. *)

Definition doubleQuote : ascii := "034"%char.
Definition lineFeed : ascii := "010"%char.
Definition backslash : ascii := "092"%char.

Definition hexDigit (n : N) : ascii :=
  ascii_of_N (if (n <? 10)%N then 48 + n else 87 + n).

(** One code unit inside a JSON string literal. *)
Definition quoteJSONChar (c : ascii) : string :=
  let n := codeUnit c in
  if (n =? 8)%N then "\b"
  else if (n =? 9)%N then "\t"
  else if (n =? 10)%N then "\n"
  else if (n =? 12)%N then "\f"
  else if (n =? 13)%N then "\r"
  else if (n =? 34)%N then String backslash (String doubleQuote "")
  else if (n =? 92)%N then String backslash (String backslash "")
  else if (n <? 32)%N
       then "\u00" ++ String (hexDigit (n / 16)) (String (hexDigit (n mod 16)) "")
  else String c "".

Fixpoint quoteJSONBody (s : string) : string :=
  match s with
  | EmptyString => EmptyString
  | String c r => quoteJSONChar c ++ quoteJSONBody r
  end.

Definition quoteJSONString (s : string) : string :=
  String doubleQuote (quoteJSONBody s ++ String doubleQuote "").

(** A bracketed list of already serialized parts, on one line when [gap]
    is empty and one part per line otherwise. *)
Definition wrapJSON (opening closing gap indent : string) (parts : list string)
    : string :=
  match parts with
  | [] => opening ++ closing
  | _ =>
      if String.eqb gap "" then opening ++ String.concat "," parts ++ closing
      else
        let inner := indent ++ gap in
        let separator := "," ++ String lineFeed inner in
        opening ++ String lineFeed inner ++ String.concat separator parts
          ++ String lineFeed indent ++ closing
  end.

(** [undefined] has no JSON text: it becomes [null] in an array and is
    left out of an object. *)
Fixpoint serializeJSON (gap indent : string) (v : value) : option string :=
  match v with
  | VUndefined => None
  | VNull => Some "null"
  | VBool true => Some "true"
  | VBool false => Some "false"
  | VString s => Some (quoteJSONString s)
  | VArray l =>
      let parts :=
        (fix items (l : list value) : list string :=
           match l with
           | [] => []
           | x :: r =>
               match serializeJSON gap (indent ++ gap) x with
               | Some t => t
               | None => "null"
               end :: items r
           end) l in
      Some (wrapJSON "[" "]" gap indent parts)
  | VObject props =>
      let parts :=
        (fix members (l : list (string * value)) : list string :=
           match l with
           | [] => []
           | (k, x) :: r =>
               match serializeJSON gap (indent ++ gap) x with
               | Some t =>
                   (quoteJSONString k ++ ":"
                      ++ (if String.eqb gap "" then "" else " ") ++ t)
                     :: members r
               | None => members r
               end
           end) props in
      Some (wrapJSON "{" "}" gap indent parts)
  end.

Fixpoint zeros (n : nat) : string :=
  match n with
  | O => EmptyString
  | S m => String "0" (zeros m)
  end.

Fixpoint spaces (n : nat) : string :=
  match n with
  | O => EmptyString
  | S m => String " " (spaces m)
  end.

(** The text [JSON.stringify(v, null, space)] gives, if it gives one;
    [space = 0] is the call without a third argument.  The gap is at most
    ten spaces. *)
Definition stringifyText (v : value) (space : nat) : option string :=
  serializeJSON (spaces (Nat.min 10 space)) "" v.

(** [JSON.stringify(v, null, space)]: a string or [undefined]. *)
Definition JSONstringify (v : value) (space : nat) : value :=
  match stringifyText v space with
  | Some t => VString t
  | None => VUndefined
  end.

(** ** The application around the handlers *)

(** What Electron and Node tell the application about where it runs, and
    [path.join]. *)
Record App : Type := mkApp {
  homePath : string;
  dirname : string;
  isDev : bool;
  processPlatform : string;
  appVersion : string;
  pathJoin : list string -> string
}.

(** Lines 12-20. *)
Definition getClaudeConfigPath (a : App) : string :=
  pathJoin a [homePath a; "Library"; "Application Support"; "Claude";
              "claude_desktop_config.json"].

(** ** The file system

    The files, path by path (the first binding of a path counts), and
    the paths on which the host makes reading or writing fail. *)
Record Disk : Type := mkDisk {
  files : list (string * string);
  readFault : string -> option Error;
  writeFault : string -> option Error
}.

Definition fileAt (d : Disk) (p : string) : option string :=
  envLookup p (files d).

(** [fs.existsSync(p)] *)
Definition existsSync (d : Disk) (p : string) : bool :=
  match fileAt d p with
  | Some _ => true
  | None => false
  end.

(** [fs.promises.readFile(p, 'utf8')] *)
Definition readFile (d : Disk) (p : string) : promiseState value :=
  match readFault d p with
  | Some e => Rejected e
  | None =>
      match fileAt d p with
      | Some data => Fulfilled (VString data)
      | None =>
          Rejected (mkError "Error"
                      ("ENOENT: no such file or directory, open '" ++ p ++ "'"))
      end
  end.

(** [fs.promises.writeFile(p, data)] for [data] a string.  What Node
    does with data of another kind (buffers, iterables) is not part of
    the model. *)
Definition writeFile (d : Disk) (p : string) (data : string)
    : promiseState unit * Disk :=
  match writeFault d p with
  | Some e => (Rejected e, d)
  | None =>
      (Fulfilled tt, mkDisk ((p, data) :: files d) (readFault d) (writeFault d))
  end.

(** [fs.promises.writeFile(p, JSON.stringify(...))]: [JSON.stringify]
    gives a string or [undefined], and [undefined] is refused as data
    before the file is touched. *)
Definition writeFileStringified (d : Disk) (p : string) (data : option string)
    : promiseState unit * Disk :=
  match data with
  | Some text => writeFile d p text
  | None =>
      (Rejected
         (TypeError
            ("The " ++ String doubleQuote "data" ++ String doubleQuote
               " argument must be of type string or an instance of Buffer, TypedArray, or DataView.")),
       d)
  end.

(** [await p] *)
Definition await {A : Type} (p : promiseState A) : completion A :=
  match p with
  | Fulfilled a => Returned a
  | Rejected e => Threw e
  | Pending => Awaiting
  end.

(** [try { body } catch (error) { throw wrap(error) }] as the whole body
    of an [async] function. *)
Definition rethrow {A : Type} (body : completion A * Disk) (wrap : Error -> Error)
    : promiseState A * Disk :=
  match body with
  | (Threw e, d) => (Rejected (wrap e), d)
  | (c, d) => (asyncResult c, d)
  end.

(** ** The configuration handlers (lines 143-194) *)

(** Lines 145-158: the [try] block of 'get-mcp-config'. *)
Definition getMcpConfigTry (a : App) (d : Disk) : completion value * Disk :=
  let configPath := getClaudeConfigPath a in
  if negb (existsSync d configPath) then
    let defaultConfig := VObject [("mcpServers", VObject [])] in
    let '(written, d') :=
      writeFileStringified d configPath (stringifyText defaultConfig 2) in
    match await written with
    | Returned _ => (Returned (JSONstringify defaultConfig 0), d')
    | Threw e => (Threw e, d')
    | Awaiting => (Awaiting, d')
    end
  else (await (readFile d configPath), d).

(** 'get-mcp-config' *)
Definition getMcpConfig (a : App) (d : Disk) : promiseState value * Disk :=
  rethrow (getMcpConfigTry a d)
    (fun _ => mkError "Error" "Failed to read configuration").

(** Lines 168-170: the [try] block of 'save-mcp-config', for the text
    the renderer sends as [jsonData]. *)
Definition saveMcpConfigTry (a : App) (jsonData : string) (d : Disk)
    : completion value * Disk :=
  let configPath := getClaudeConfigPath a in
  let '(written, d') := writeFile d configPath jsonData in
  match await written with
  | Returned _ => (Returned (VBool true), d')
  | Threw e => (Threw e, d')
  | Awaiting => (Awaiting, d')
  end.

(** 'save-mcp-config' *)
Definition saveMcpConfig (a : App) (jsonData : string) (d : Disk)
    : promiseState value * Disk :=
  rethrow (saveMcpConfigTry a jsonData d)
    (fun _ => mkError "Error" "Failed to save configuration").

(** Lines 180-189: the [try] block of 'get-claude-config'. *)
Definition getClaudeConfigTry (a : App) (d : Disk) : completion value * Disk :=
  let claudeConfigPath := getClaudeConfigPath a in
  if negb (existsSync d claudeConfigPath) then
    (Threw (mkError "Error" "Claude desktop configuration file not found"), d)
  else (await (readFile d claudeConfigPath), d).

(** 'get-claude-config' *)
Definition getClaudeConfig (a : App) (d : Disk) : promiseState value * Disk :=
  rethrow (getClaudeConfigTry a d)
    (fun e => mkError "Error"
                ("Failed to read Claude configuration: " ++ message e)).

(** The two texts of the default configuration: on one line, as
    'get-mcp-config' returns it, and indented by two, as it is written. *)
Definition defaultConfigCompact : string :=
  "{" ++ String doubleQuote "mcpServers" ++ String doubleQuote ":{}}".

Definition defaultConfigIndented : string :=
  "{" ++ String lineFeed "  " ++ String doubleQuote "mcpServers"
    ++ String doubleQuote ": {}" ++ String lineFeed "}".

(** [path.join] on segments that need no normalising. *)
Definition posixJoin (segments : list string) : string :=
  String.concat "/" segments.

Definition macApp : App :=
  mkApp "/Users/ada" "/Applications/MCP Manager.app/dist/electron" false
        "darwin" "1.0.0" posixJoin.

Definition linuxApp : App :=
  mkApp "/home/ada" "/opt/mcp-manager/dist/electron" false
        "linux" "1.0.0" posixJoin.

Definition devApp : App :=
  mkApp "/Users/ada" "/Users/ada/mcp-manager/dist/electron" true
        "darwin" "1.0.0" posixJoin.

Definition emptyDisk : Disk := mkDisk [] (fun _ => None) (fun _ => None).

(** ** Windows and the life cycle of the application
    (lines 9, 22-72, 75-137, 141-222 and 304-308) *)

(** The two entries of the menu that have a [click] of their own. *)
Inductive menuAction : Type := LearnMoreClick | AboutClick.

(** An entry of a menu: one that Electron serves by its [role], a
    separator, or one with a label and a [click] listener. *)
Inductive menuItem : Type :=
  | RoleItem (role : string)
  | SeparatorItem
  | ClickItem (label : string) (click : menuAction).

Record menu : Type := mkMenu {
  menuLabel : string;
  submenu : list menuItem
}.

(** Lines 76-133: the [template] of [createMenu]. *)
Definition menuTemplate : list menu :=
  [ mkMenu "File" [RoleItem "quit"];
    mkMenu "Edit"
      [RoleItem "undo"; RoleItem "redo"; SeparatorItem;
       RoleItem "cut"; RoleItem "copy"; RoleItem "paste";
       RoleItem "delete"; RoleItem "selectAll"];
    mkMenu "View"
      [RoleItem "reload"; RoleItem "forceReload"; RoleItem "toggleDevTools";
       SeparatorItem;
       RoleItem "resetZoom"; RoleItem "zoomIn"; RoleItem "zoomOut";
       SeparatorItem;
       RoleItem "togglefullscreen"];
    mkMenu "Help"
      [ClickItem "Learn More" LearnMoreClick; ClickItem "About" AboutClick] ].

(** The calls main.ts makes to Electron. *)
Inductive uiEffect : Type :=
  | NewBrowserWindow (w : nat) (webSecurity : bool) (icon : string)
  | Show (w : nat)
  | LoadURL (w : nat) (url : string)
  | OpenDevTools (w : nat)
  | LoadFile (w : nat) (file : string)
  | SetWindowOpenHandler (w : nat)
  | SetApplicationMenu (template : list menu)
  | Handle (channel : string)
  | OpenExternal (url : string)
  | ExecuteJavaScript (w : nat) (script : string)
  | AppQuit.

(** The global [mainWindow], the windows Electron has open
    ([BrowserWindow.getAllWindows()]), the windows whose
    [once('ready-to-show')] listener has not run yet, how many windows
    were created so far, whether the [whenReady] callback ran, whether
    main.ts called [app.quit()], and the calls main.ts made. *)
Record Shell : Type := mkShell {
  mainWindow : option nat;
  openWindows : list nat;
  awaitingShow : list nat;
  created : nat;
  ready : bool;
  hasQuit : bool;
  uiLog : list uiEffect
}.

Definition initialShell : Shell := mkShell None [] [] 0 false false [].

(** The events main.ts has a listener of its own for.  The [role]
    entries of the menu are served by Electron without any code of
    main.ts, and are no events here. *)
Inductive appEvent : Type :=
  | AppReady
  | AppActivate
  | WindowReadyToShow (w : nat)
  | WindowClosed (w : nat)
  | WindowOpenRequest (w : nat) (url : string)
  | MenuLearnMore
  | MenuAbout.

Definition emit (es : list uiEffect) (s : Shell) : Shell :=
  mkShell (mainWindow s) (openWindows s) (awaitingShow s) (created s)
          (ready s) (hasQuit s) (uiLog s ++ es).

(** Lines 75-137: the menu is built from the template and installed. *)
Definition createMenu (s : Shell) : Shell :=
  emit [SetApplicationMenu menuTemplate] s.

(** Lines 22-72. *)
Definition createWindow (a : App) (s : Shell) : Shell :=
  let w := created s in
  let icon :=
    pathJoin a [dirname a;
                if isDev a then "../../assets/icons/icon.png"
                else "../assets/icons/icon.png"] in
  let s :=
    mkShell (Some w) (openWindows s ++ [w]) (awaitingShow s ++ [w]) (S w)
            (ready s) (hasQuit s)
            (uiLog s ++ [NewBrowserWindow w (negb (isDev a)) icon]) in
  let s :=
    if isDev a
    then emit [LoadURL w "http://localhost:5173"; OpenDevTools w] s
    else emit [LoadFile w (pathJoin a [dirname a; "../renderer/index.html"])] s in
  let s := emit [SetWindowOpenHandler w] s in
  createMenu s.

(** Lines 304-308: the listener of 'window-all-closed'. *)
Definition windowAllClosed (a : App) (s : Shell) : Shell :=
  if negb (String.eqb (processPlatform a) "darwin") then
    mkShell (mainWindow s) (openWindows s) (awaitingShow s) (created s)
            (ready s) true (uiLog s ++ [AppQuit])
  else s.

(** Lines 122-129: the script of the About entry. *)
Definition aboutScript (a : App) : string :=
  let aboutMessage :=
    "MCP Manager" ++ String lineFeed ("Version: " ++ appVersion a)
      ++ String lineFeed (String lineFeed
           "A desktop application for managing Model Context Protocol (MCP) servers.") in
  String lineFeed (spaces 16 ++ "alert('" ++ aboutMessage ++ "');")
    ++ String lineFeed (spaces 14).

Definition isOpen (w : nat) (s : Shell) : bool :=
  existsb (Nat.eqb w) (openWindows s).

(** The [once('ready-to-show')] listener of [w] is still registered. *)
Definition awaits (w : nat) (s : Shell) : bool :=
  existsb (Nat.eqb w) (awaitingShow s).

Definition without (w : nat) (l : list nat) : list nat :=
  filter (fun x => negb (Nat.eqb w x)) l.

(** A [once] listener is taken off before it runs. *)
Definition served (w : nat) (s : Shell) : Shell :=
  mkShell (mainWindow s) (openWindows s) (without w (awaitingShow s))
          (created s) (ready s) (hasQuit s) (uiLog s).

(** One event, served by the listener the code registered for it; an
    event for which no listener is registered (not yet, or not any more),
    or that comes after [app.quit()], changes nothing. *)
Definition handleEvent (a : App) (ev : appEvent) (s : Shell) : Shell :=
  if hasQuit s then s
  else
    match ev with
    | AppReady =>
        if ready s then s
        else
          let s :=
            emit [Handle "get-mcp-config"; Handle "save-mcp-config";
                  Handle "get-claude-config"; Handle "ping-mcp-server"] s in
          let s := createWindow a s in
          mkShell (mainWindow s) (openWindows s) (awaitingShow s) (created s)
                  true (hasQuit s) (uiLog s)
    | AppActivate =>
        if ready s && Nat.eqb (List.length (openWindows s)) 0
        then createWindow a s
        else s
    | WindowReadyToShow w =>
        if isOpen w s && awaits w s then
          let s := served w s in
          match mainWindow s with
          | Some m => emit [Show m] s
          | None => s
          end
        else s
    | WindowClosed w =>
        if isOpen w s then
          let remaining := without w (openWindows s) in
          let s :=
            mkShell None remaining (without w (awaitingShow s)) (created s)
                    (ready s) (hasQuit s) (uiLog s) in
          if Nat.eqb (List.length remaining) 0 then windowAllClosed a s else s
        else s
    | WindowOpenRequest w url =>
        if isOpen w s then emit [OpenExternal url] s else s
    | MenuLearnMore =>
        if ready s then emit [OpenExternal "https://github.com/iagolast/mcp-manager"] s
        else s
    | MenuAbout =>
        if ready s then
          match mainWindow s with
          | Some m => emit [ExecuteJavaScript m (aboutScript a)] s
          | None => s
          end
        else s
    end.

Definition runEvents (a : App) (evs : list appEvent) (s : Shell) : Shell :=
  fold_left (fun s ev => handleEvent a ev s) evs s.

(** A menu template has an entry with this role. *)
Definition offersRole (role : string) (template : list menu) : bool :=
  existsb
    (fun m =>
       existsb
         (fun i =>
            match i with
            | RoleItem r => String.eqb r role
            | _ => false
            end)
         (submenu m))
    template.

(** How often [w] was shown. *)
Definition showCount (w : nat) (log : list uiEffect) : nat :=
  List.length
    (filter (fun e => match e with Show v => Nat.eqb v w | _ => false end) log).

(** What the log of shows satisfies in every state: a window whose
    listener is still registered was not shown, no window was shown
    twice, and only windows that were created were shown. *)
Definition showInvariant (s : Shell) : Prop :=
  (forall w, awaits w s = true -> showCount w (uiLog s) = 0%nat) /\
  (forall w, (showCount w (uiLog s) <= 1)%nat) /\
  (forall w, (created s <= w)%nat -> showCount w (uiLog s) = 0%nat /\ awaits w s = false).

(** The global [mainWindow] and the open windows agree: no window and
    [null], or one window and a reference to it. *)
Definition windowsAgree (s : Shell) : Prop :=
  (openWindows s = [] /\ mainWindow s = None) \/
  (exists w, openWindows s = [w] /\ mainWindow s = Some w /\ (w < created s)%nat).

(** An effect a production build must not have. *)
Definition developmentOnly (e : uiEffect) : bool :=
  match e with
  | LoadURL _ _ | OpenDevTools _ => true
  | NewBrowserWindow _ webSecurity _ => negb webSecurity
  | _ => false
  end.

(** The text after the first [sep] of a string, if there is one. *)
Fixpoint afterFirst (sep : ascii) (s : string) : option string :=
  match s with
  | EmptyString => None
  | String c r => if Ascii.eqb c sep then Some r else afterFirst sep r
  end.

(** The effects of a probe that come after [socket.connect]. *)
Definition afterDial (e : effect) : bool :=
  match e with
  | SocketDestroy | Resolve _ _ => true
  | _ => false
  end.

(** The text before the first [sep] of a string, all of it when there
    is none: the first piece of [split]. *)
Fixpoint upTo (sep : ascii) (s : string) : string :=
  match s with
  | EmptyString => EmptyString
  | String c r => if Ascii.eqb c sep then EmptyString else String c (upTo sep r)
  end.

(** What every state the application can be in satisfies: the windows
    and [mainWindow] agree; before [whenReady] there is no window; after
    [app.quit()], which only a platform other than macOS sees, there is
    none either; and off macOS a ready, running application has a
    window. *)
Definition shellInvariant (a : App) (s : Shell) : Prop :=
  windowsAgree s /\
  (ready s = false -> openWindows s = []) /\
  (hasQuit s = true -> openWindows s = [] /\ processPlatform a <> "darwin") /\
  (processPlatform a <> "darwin" -> ready s = true -> hasQuit s = false ->
   openWindows s <> []).

(** * Properties *)

(** ** Numbers and parsing *)

Example parseInt_9999 : parseIntString "9999" = Num 9999.
Proof. reflexivity. Qed.

Example parseInt_sign_and_suffix : parseIntString "  -12px" = Num (-12).
Proof. reflexivity. Qed.

Example parseInt_no_digits : parseIntString "x" = NaN.
Proof. reflexivity. Qed.

Example parseInt_empty : parseIntString "" = NaN.
Proof. reflexivity. Qed.

Example parseInt_rounds :
  parseIntString "9007199254740993" = Num 9007199254740992.
Proof. vm_compute. reflexivity. Qed.

Example split_segments :
  splitString "=" "--port=12=34" = ["--port"; "12"; "34"].
Proof. reflexivity. Qed.

Example includes_inside : includesString "--port=" "x--port=5" = true.
Proof. reflexivity. Qed.

Example round_max_double :
  roundToDouble (2 ^ 1024 - 2 ^ 970 - 1) = Num ((2 ^ 53 - 1) * 2 ^ 971).
Proof. vm_compute. reflexivity. Qed.

Example round_overflow : roundToDouble (- (2 ^ 1024 - 2 ^ 970)) = Infinity true.
Proof. vm_compute. reflexivity. Qed.

Example round_ties_to_even :
  roundToDouble (2 ^ 53 + 1) = Num (2 ^ 53) /\
  roundToDouble (2 ^ 53 + 3) = Num (2 ^ 53 + 4).
Proof. split; vm_compute; reflexivity. Qed.

Example ToString_array :
  ToString (VArray [VString "a"; VNull; VArray [VBool true; VUndefined]; VObject []])
  = "a,,true,,[object Object]".
Proof. reflexivity. Qed.

(** Integers of magnitude below [2^53] are numbers as they are. *)
Lemma roundToDouble_exact (z : Z) :
  Z.abs z < 2 ^ 53 -> roundToDouble z = Num z.
Proof.
  intros Hz. unfold roundToDouble.
  destruct (Z.eq_dec z 0) as [-> | Hnz]; [reflexivity |].
  assert (Hlog : Z.log2 (Z.abs z) < 53) by (apply Z.log2_lt_pow2; lia).
  destruct (Z.leb_spec (Z.log2 (Z.abs z) + 1) 53); [reflexivity | lia].
Qed.

(** Rounding never turns a non-zero integer into 0 or NaN, so [!port] and
    [isNaN(port)] see through it. *)
Lemma roundToDouble_truthy (z : Z) :
  z <> 0 -> falsyNumber (roundToDouble z) = false.
Proof.
  intros Hnz. unfold roundToDouble.
  set (a := Z.abs z). set (sh := Z.log2 a + 1 - 53).
  destruct (Z.leb_spec (Z.log2 a + 1) 53) as [_ | Hbig].
  - simpl. destruct z; congruence.
  - cbv zeta. fold a. fold sh.
    set (q := Z.shiftr a sh).
    match goal with |- context [Z.shiftl ?x sh] => set (q' := x) end.
    assert (Hsh : 0 < sh) by (unfold sh; lia).
    assert (Ha : 0 < a) by (unfold a; lia).
    assert (Hq : 0 < q).
    { unfold q. rewrite Z.shiftr_div_pow2 by lia.
      apply Z.div_str_pos. split; [apply Z.pow_pos_nonneg; lia |].
      apply Z.le_trans with (2 ^ Z.log2 a).
      - apply Z.pow_le_mono_r; unfold sh; lia.
      - apply Z.log2_spec; lia. }
    assert (Hq' : 0 < q') by (unfold q'; destruct (_ || _); lia).
    assert (Hv : 0 < Z.shiftl q' sh).
    { rewrite Z.shiftl_mul_pow2 by lia.
      apply Z.mul_pos_pos; [lia | apply Z.pow_pos_nonneg; lia]. }
    destruct (1024 <? _); [reflexivity |].
    simpl. destruct (Z.sgn z * Z.shiftl q' sh) eqn:E; try reflexivity.
    apply Z.mul_eq_0 in E. destruct E as [E | E]; [| lia].
    destruct z; simpl in E; congruence.
Qed.

Lemma roundToDouble_not_NaN (z : Z) : isNaN (roundToDouble z) = false.
Proof.
  unfold roundToDouble. cbv zeta.
  destruct (_ <=? 53); [reflexivity |].
  destruct (1024 <? _); reflexivity.
Qed.

(** ** The loop over [server.args] *)

Lemma elementAt_middle (pre : list value) (x : value) (later : list value) :
  elementAt (pre ++ x :: later) (List.length pre) = x.
Proof. unfold elementAt. apply nth_middle. Qed.

Lemma elementAt_next (pre : list value) (x : value) (later : list value) :
  elementAt (pre ++ x :: later) (List.length pre + 1) = elementAt later 0.
Proof.
  unfold elementAt.
  rewrite app_nth2 by lia.
  replace (List.length pre + 1 - List.length pre)%nat with 1%nat by lia.
  reflexivity.
Qed.

Lemma not_last_iff (pre : list value) (x : value) (later : list value) :
  (Z.of_nat (List.length pre)
     <? Z.of_nat (List.length (pre ++ x :: later)) - 1)
  = negb (Nat.eqb (List.length later) 0).
Proof.
  rewrite length_app. simpl List.length.
  destruct later as [| y later']; simpl List.length.
  - simpl negb. apply Z.ltb_ge. lia.
  - simpl negb. apply Z.ltb_lt. lia.
Qed.

(** The indexed loop, entered at index [length pre], does what [scanArgs]
    does on the elements from there on. *)
Lemma argsLoop_scanArgs (rest pre : list value) (port : number) :
  argsLoop (pre ++ rest) (List.length rest) (List.length pre) port
  = scanArgs rest port.
Proof.
  revert pre. induction rest as [| x later IH]; intros pre.
  - reflexivity.
  - simpl argsLoop. simpl scanArgs.
    rewrite elementAt_middle, elementAt_next, not_last_iff.
    destruct (includes x "--port=") as [[|] | e]; simpl; try reflexivity.
    destruct (strictEqualsString x "--port" && _); [reflexivity |].
    specialize (IH (pre ++ [x])%list).
    rewrite <- app_assoc, length_app in IH. simpl in IH. exact IH.
Qed.

Lemma portFromArgs_scanArgs (server : value) (l : list value) (p : number) :
  Get server p_args = Ok (VArray l) ->
  falsyNumber p = true ->
  portFromArgs server p = scanArgs l p.
Proof.
  intros Hargs Hp. unfold portFromArgs. rewrite Hp, Hargs. simpl.
  apply (argsLoop_scanArgs l []).
Qed.

(** Plain elements are passed over. *)
Lemma scanArgs_plain (pre rest : list value) (port : number) :
  Forall (fun x => plain x = true) pre ->
  scanArgs (pre ++ rest) port = scanArgs rest port.
Proof.
  intros Hpre. induction Hpre as [| x pre' Hx _ IH]; [reflexivity |].
  destruct x as [| | b | s | l | o]; try discriminate Hx.
  simpl in Hx. apply andb_true_iff in Hx. destruct Hx as [Hinc Heq].
  apply negb_true_iff in Hinc. apply negb_true_iff in Heq.
  simpl. rewrite Hinc, Heq. simpl. exact IH.
Qed.

(** At a specifier the scan stops with the number read there, whatever
    comes later. *)
Lemma scanArgs_specifier (x : value) (later : list value) (port : number) :
  isSpecifier x later = true ->
  scanArgs (x :: later) port = Ok (specifierValue x later).
Proof.
  unfold isSpecifier. intros H.
  destruct x as [| | b | s | l | o]; simpl in H; try discriminate H.
  simpl. destruct (includesString "--port=" s) eqn:Hinc; simpl.
  - reflexivity.
  - simpl in H. rewrite H. reflexivity.
Qed.

Lemma defaultPort_falsy (p : number) :
  falsyNumber p = true -> defaultPort p = Num 8080.
Proof. intros H. unfold defaultPort. rewrite H. reflexivity. Qed.

Lemma defaultPort_truthy (p : number) :
  falsyNumber p = false -> defaultPort p = p.
Proof.
  intros H. unfold defaultPort. rewrite H.
  destruct p; try reflexivity. discriminate H.
Qed.

(** With no usable [env.MCP_PORT], the port is what the scan of [args]
    finds, or the default. *)
Lemma inferPort_scanArgs (server : value) (l : list value) :
  noPortFromEnv server ->
  Get server p_args = Ok (VArray l) ->
  exists p0, falsyNumber p0 = true /\
    inferPort server = (p <- scanArgs l p0 ;; Ok (defaultPort p)).
Proof.
  intros [p0 [Henv Hp0]] Hargs. exists p0. split; [exact Hp0 |].
  unfold inferPort. rewrite Henv. simpl.
  rewrite (portFromArgs_scanArgs server l p0 Hargs Hp0). reflexivity.
Qed.

(** A value that is falsy does not parse to a number. *)
Lemma parseInt_falsy (v : value) : truthy v = false -> parseInt v = NaN.
Proof.
  destruct v as [| | [|] | s | l | o]; simpl; intros H;
    try reflexivity; try discriminate H.
  apply negb_false_iff, String.eqb_eq in H. subst s. reflexivity.
Qed.

Lemma lookup_env (k : string) (e : list (string * string)) :
  lookup k (map (fun kv => (fst kv, VString (snd kv))) e)
  = match envLookup k e with
    | Some s => VString s
    | None => VUndefined
    end.
Proof.
  induction e as [| [k' v] r IH]; [reflexivity |].
  simpl. destruct (String.eqb k k'); [reflexivity | exact IH].
Qed.

(** Rule 1 on a conforming definition. *)
Lemma portFromEnv_toValue (d : ServerDefinition) :
  portFromEnv (toValue d) (Num 0)
  = Ok match mcpPortOf d with
       | Some s => if String.eqb s "" then Num 0 else parseIntString s
       | None => Num 0
       end.
Proof.
  unfold portFromEnv, toValue, mcpPortOf.
  destruct (env d) as [e |]; simpl; [| reflexivity].
  rewrite lookup_env.
  destruct (envLookup "MCP_PORT" e) as [s |]; simpl; [| reflexivity].
  destruct (String.eqb s ""); reflexivity.
Qed.

Lemma args_toValue (d : ServerDefinition) :
  Get (toValue d) p_args = Ok (VArray (map VString (args d))).
Proof. reflexivity. Qed.

(** ** Port inference *)

Example port_one_token :
  inferPort (toValue (mkServer "node" ["--port=1234"] None)) = Ok (Num 1234).
Proof. reflexivity. Qed.

Example port_two_tokens :
  inferPort (toValue (mkServer "node" ["--port"; "4321"] None)) = Ok (Num 4321).
Proof. reflexivity. Qed.

Example port_second_equals :
  inferPort (toValue (mkServer "node" ["--port=12=34"] None)) = Ok (Num 12).
Proof. reflexivity. Qed.

Example port_equals_before_flag :
  inferPort (toValue (mkServer "node" ["a=b--port=5"] None)) = Ok (Num 8080).
Proof. reflexivity. Qed.

Example port_null_argument :
  inferPort (VObject [("command", VString "node"); ("args", VArray [VNull])])
  = Throw (TypeError "Cannot read properties of null (reading 'includes')").
Proof. reflexivity. Qed.

(** Rule 1 wins when it gives a non-zero integer. *)
Lemma inferPort_env (server envv v : value) (n : Z) :
  Get server p_env = Ok envv ->
  Get envv p_MCP_PORT = Ok v ->
  parseInt v = Num n ->
  n <> 0 ->
  inferPort server = Ok (Num n).
Proof.
  intros Henv Hport Hparse Hn.
  assert (Hv : truthy v = true).
  { destruct (truthy v) eqn:E; [reflexivity |].
    rewrite (parseInt_falsy v E) in Hparse. discriminate Hparse. }
  assert (He : truthy envv = true).
  { destruct envv as [| | b | s | l | o]; simpl in Hport;
      try discriminate Hport; try reflexivity;
      injection Hport as <-; discriminate Hv. }
  unfold inferPort, portFromEnv. rewrite Henv. simpl.
  rewrite He, Hport. simpl. rewrite Hv, Hparse. simpl.
  unfold portFromArgs, defaultPort.
  destruct n; try reflexivity. contradiction.
Qed.

(** C2, as amended: when [env.MCP_PORT] parses (base 10) to a non-zero
    integer [n], the inferred port is [n], whatever [args] holds; so a
    definition with [MCP_PORT = "9999"] and an argument ["--port=1111"]
    is probed on port 9999.  When it parses to 0, the port is what the
    scan of [args] gives, as if [MCP_PORT] were not there. *)
Theorem env_port_takes_precedence :
  (forall (server envv v : value) (n : Z),
      Get server p_env = Ok envv ->
      Get envv p_MCP_PORT = Ok v ->
      parseInt v = Num n ->
      n <> 0 ->
      inferPort server = Ok (Num n))
  /\
  (forall d : ServerDefinition,
      mcpPortOf d = Some "9999" ->
      In "--port=1111" (args d) ->
      inferPort (toValue d) = Ok (Num 9999))
  /\
  (forall (server envv v : value),
      Get server p_env = Ok envv ->
      Get envv p_MCP_PORT = Ok v ->
      parseInt v = Num 0 ->
      inferPort server
      = (p <- portFromArgs server (Num 0) ;; Ok (defaultPort p))).
Proof.
  split; [| split].
  - exact inferPort_env.
  - intros d Hd _.
    unfold inferPort. rewrite portFromEnv_toValue, Hd. reflexivity.
  - intros server envv v Henv Hport Hparse.
    unfold inferPort, portFromEnv. rewrite Henv. simpl.
    destruct (truthy envv); [| reflexivity].
    rewrite Hport. simpl.
    destruct (truthy v); [rewrite Hparse |]; reflexivity.
Qed.

Lemma env_port_takes_precedence_witness :
  inferPort (toValue (mkServer "node" ["--port=1111"]
                        (Some [("MCP_PORT", "9999")])))
  = Ok (Num 9999)
  /\
  inferPort (toValue (mkServer "node" ["server.js"; "--port=1111"]
                        (Some [("HOME", "/root"); ("MCP_PORT", "9999")])))
  = Ok (Num 9999).
Proof.
  split.
  - apply (proj1 env_port_takes_precedence
             (toValue (mkServer "node" ["--port=1111"]
                         (Some [("MCP_PORT", "9999")])))
             (VObject [("MCP_PORT", VString "9999")])
             (VString "9999") 9999).
    + reflexivity.
    + reflexivity.
    + reflexivity.
    + lia.
  - apply (proj1 (proj2 env_port_takes_precedence)).
    + reflexivity.
    + simpl. right. left. reflexivity.
Defined.

(** C2 fails as stated: ["0"] parses as the base-10 integer 0, yet the
    port is taken from [args]. *)
Lemma env_port_zero_yields_to_args :
  let d := mkServer "node" ["--port=1111"] (Some [("MCP_PORT", "0")]) in
  parseInt (VString "0") = Num 0 /\
  inferPort (toValue d) = Ok (Num 1111) /\
  inferPort (toValue d) <> Ok (Num 0).
Proof.
  cbv zeta. split; [reflexivity |]. split; [reflexivity |].
  intros H. discriminate H.
Qed.

(** C3, as amended: with no usable [env.MCP_PORT], the scan of [args]
    stops at the first element of a port-specifier shape and takes the
    number read there, whatever the later elements are; when that number
    is 0 or NaN the port is the default 8080. *)
Theorem scan_stops_at_first_specifier
    (server : value) (pre : list value) (x : value) (later : list value) :
  noPortFromEnv server ->
  Get server p_args = Ok (VArray (pre ++ x :: later)) ->
  Forall (fun y => plain y = true) pre ->
  isSpecifier x later = true ->
  inferPort server = Ok (defaultPort (specifierValue x later)) /\
  (falsyNumber (specifierValue x later) = true ->
   inferPort server = Ok (Num 8080)).
Proof.
  intros Henv Hargs Hpre Hspec.
  destruct (inferPort_scanArgs server _ Henv Hargs) as [p0 [_ Hinfer]].
  rewrite (scanArgs_plain pre (x :: later) p0 Hpre) in Hinfer.
  rewrite (scanArgs_specifier x later p0 Hspec) in Hinfer. simpl in Hinfer.
  split; [exact Hinfer |].
  intros Hf. rewrite Hinfer, (defaultPort_falsy _ Hf). reflexivity.
Qed.

Lemma scan_stops_at_first_specifier_witness :
  let server := toValue (mkServer "node" ["server.js"; "--port"; "x"; "--port=7"] None) in
  inferPort server = Ok (Num 8080).
Proof.
  cbv zeta.
  refine (proj2 (scan_stops_at_first_specifier
                   (toValue (mkServer "node" ["server.js"; "--port"; "x"; "--port=7"] None))
                   [VString "server.js"] (VString "--port")
                   [VString "x"; VString "--port=7"] _ _ _ _) _).
  - exists (Num 0). split; reflexivity.
  - reflexivity.
  - repeat constructor.
  - reflexivity.
  - reflexivity.
Defined.

(** C3 fails as stated: the scan does not go on after an invalid value. *)
Lemma invalid_specifier_ends_scan :
  let d := mkServer "node" ["--port"; "x"; "--port=7"] None in
  inferPort (toValue d) = Ok (Num 8080) /\
  inferPort (toValue d) <> Ok (Num 7).
Proof.
  cbv zeta. split; [reflexivity |]. intros H. discriminate H.
Qed.

(** C4, as amended: when [env.MCP_PORT] and the scan of [args] give
    nothing but 0 or NaN, the inferred port is 8080; this is so for every
    conforming definition with no [MCP_PORT] and only plain arguments. *)
Theorem default_port_8080 :
  (forall (server : value) (p1 p2 : number),
      portFromEnv server (Num 0) = Ok p1 ->
      falsyNumber p1 = true ->
      portFromArgs server p1 = Ok p2 ->
      falsyNumber p2 = true ->
      inferPort server = Ok (Num 8080))
  /\
  (forall d : ServerDefinition,
      mcpPortOf d = None ->
      Forall (fun s => plain (VString s) = true) (args d) ->
      inferPort (toValue d) = Ok (Num 8080)).
Proof.
  split.
  - intros server p1 p2 H1 _ H2 Hf2.
    unfold inferPort. rewrite H1. simpl. rewrite H2. simpl.
    rewrite (defaultPort_falsy _ Hf2). reflexivity.
  - intros d Hd Hargs.
    assert (Henv : noPortFromEnv (toValue d)).
    { exists (Num 0). rewrite portFromEnv_toValue, Hd. split; reflexivity. }
    destruct (inferPort_scanArgs _ _ Henv (args_toValue d)) as [p0 [Hp0 ->]].
    assert (Hpre : Forall (fun y => plain y = true) (map VString (args d))).
    { apply Forall_map. exact Hargs. }
    rewrite <- (app_nil_r (map VString (args d))).
    rewrite (scanArgs_plain _ [] p0 Hpre). simpl.
    rewrite (defaultPort_falsy _ Hp0). reflexivity.
Qed.

Lemma default_port_8080_witness :
  inferPort (toValue (mkServer "npx" ["--port=abc"] (Some [("MCP_PORT", "zero")])))
  = Ok (Num 8080)
  /\
  inferPort (toValue (mkServer "npx" ["-y"; "some-server"] (Some [("HOME", "/root")])))
  = Ok (Num 8080).
Proof.
  split.
  - apply (proj1 default_port_8080 _ NaN NaN); reflexivity.
  - apply (proj2 default_port_8080).
    + reflexivity.
    + repeat constructor.
Defined.

(** C4 fails as stated: a digit string too long for a double gives no
    valid integer, yet what it parses to, [Infinity], is neither 0 nor
    NaN, so it is kept and the port is not 8080. *)
Lemma overflowing_port_is_not_defaulted :
  let d := mkServer "node" [] (Some [("MCP_PORT", String "1" (zeros 400))]) in
  parseIntString (String "1" (zeros 400)) = Infinity false /\
  inferPort (toValue d) = Ok (Infinity false) /\
  inferPort (toValue d) <> Ok (Num 8080).
Proof.
  cbv zeta. split; [vm_compute; reflexivity |].
  split; [vm_compute; reflexivity |].
  intros H. vm_compute in H. discriminate H.
Qed.

(** C7, as amended: with no usable [env.MCP_PORT], the first element of
    [args] that contains [--port=] anywhere in it, after plain elements
    only, is read as a port specifier: the port is what [parseInt] makes
    of the piece between its first and second [=] (8080 when that is 0 or
    NaN).  So [args = ["x--port=5"]] gives port 5, while
    [args = ["--my-port=5"]], which does not contain [--port=], gives the
    default 8080. *)
Theorem substring_is_port_specifier :
  (forall (server : value) (pre : list value) (s : string) (later : list value),
      noPortFromEnv server ->
      Get server p_args = Ok (VArray (pre ++ VString s :: later)) ->
      Forall (fun y => plain y = true) pre ->
      includesString "--port=" s = true ->
      inferPort server = Ok (defaultPort (parseInt (portArgOf s))))
  /\
  (forall c : string,
      inferPort (toValue (mkServer c ["x--port=5"] None)) = Ok (Num 5))
  /\
  (forall c : string,
      inferPort (toValue (mkServer c ["--my-port=5"] None)) = Ok (Num 8080)).
Proof.
  split; [| split].
  - intros server pre s later Henv Hargs Hpre Hinc.
    destruct (inferPort_scanArgs server _ Henv Hargs) as [p0 [_ ->]].
    rewrite (scanArgs_plain pre _ p0 Hpre).
    simpl. rewrite Hinc. reflexivity.
  - intros c. reflexivity.
  - intros c. reflexivity.
Qed.

Lemma substring_is_port_specifier_witness :
  inferPort (toValue (mkServer "node" ["server.js"; "--listen--port=5=tcp"; "--port=9"] None))
  = Ok (Num 5).
Proof.
  apply (proj1 substring_is_port_specifier
           (toValue (mkServer "node" ["server.js"; "--listen--port=5=tcp"; "--port=9"] None))
           [VString "server.js"] "--listen--port=5=tcp" [VString "--port=9"]).
  - exists (Num 0). split; reflexivity.
  - reflexivity.
  - repeat constructor.
  - reflexivity.
Defined.

(** C7 fails as stated: ["--my-port=5"] has a single dash before [port],
    so it does not contain [--port=], and the port is the default. *)
Lemma my_port_is_not_a_specifier :
  let d := mkServer "node" ["--my-port=5"] None in
  includesString "--port=" "--my-port=5" = false /\
  inferPort (toValue d) = Ok (Num 8080) /\
  inferPort (toValue d) <> Ok (Num 5).
Proof.
  cbv zeta. split; [reflexivity |]. split; [reflexivity |].
  intros H. discriminate H.
Qed.

(** C8: when [args] ends with ["--port"], after plain elements only, and
    [env.MCP_PORT] gives no usable port, port inference returns (it does
    not throw) and the port is the default 8080. *)
Theorem trailing_port_flag_defaults
    (server : value) (pre : list value) :
  noPortFromEnv server ->
  Get server p_args = Ok (VArray (pre ++ [VString "--port"])) ->
  Forall (fun y => plain y = true) pre ->
  inferPort server = Ok (Num 8080).
Proof.
  intros Henv Hargs Hpre.
  destruct (inferPort_scanArgs server _ Henv Hargs) as [p0 [Hp0 ->]].
  rewrite (scanArgs_plain pre _ p0 Hpre). simpl.
  rewrite (defaultPort_falsy _ Hp0). reflexivity.
Qed.

Lemma trailing_port_flag_defaults_witness :
  inferPort (toValue (mkServer "node" ["server.js"; "--port"] None))
  = Ok (Num 8080).
Proof.
  apply (trailing_port_flag_defaults
           (toValue (mkServer "node" ["server.js"; "--port"] None))
           [VString "server.js"]).
  - exists (Num 0). split; reflexivity.
  - reflexivity.
  - repeat constructor.
Defined.

(** ** The probe *)

(** Case analysis on the event a listener serves and on the promise it
    finds. *)
Ltac listener_cases ev st :=
  destruct ev; unfold listener, resolve, record, destroy; simpl;
  destruct (settled st) eqn:?; simpl.

Lemma listener_trace (ev : socketEvent) (st : probe) :
  trace (listener ev st)
  = (trace st ++ [SocketDestroy; Resolve (byListener ev) (eventResult ev)])%list.
Proof. listener_cases ev st; rewrite <- app_assoc; reflexivity. Qed.

Lemma listener_destroyed (ev : socketEvent) (st : probe) :
  destroyed (listener ev st) = true.
Proof. listener_cases ev st; reflexivity. Qed.

Lemma listener_dialled (ev : socketEvent) (st : probe) :
  dialled (listener ev st) = dialled st.
Proof. listener_cases ev st; reflexivity. Qed.

Lemma listener_pending (ev : socketEvent) (st : probe) :
  settled st = Pending ->
  settled (listener ev st) = Fulfilled (eventResult ev) /\
  settledBy (listener ev st) = Some (byListener ev).
Proof.
  intros H. listener_cases ev st; try discriminate H; split; reflexivity.
Qed.

(** Once the promise is settled, a listener leaves it as it is. *)
Lemma listener_settled (ev : socketEvent) (st : probe) :
  settled st <> Pending ->
  settled (listener ev st) = settled st /\
  settledBy (listener ev st) = settledBy st.
Proof.
  intros H. listener_cases ev st; try contradiction; split; reflexivity.
Qed.

Lemma deliver_settled (evs : list socketEvent) (st : probe) :
  settled st <> Pending ->
  settled (deliver evs st) = settled st /\
  settledBy (deliver evs st) = settledBy st.
Proof.
  revert st. induction evs as [| ev evs IH]; intros st H; [split; reflexivity |].
  simpl. destruct (listener_settled ev st H) as [Hs Hb].
  destruct (IH (listener ev st)) as [Hs' Hb'].
  - rewrite Hs. exact H.
  - rewrite Hs', Hb'. split; assumption.
Qed.

Lemma deliver_dialled (evs : list socketEvent) (st : probe) :
  dialled (deliver evs st) = dialled st.
Proof.
  revert st. induction evs as [| ev evs IH]; intros st; [reflexivity |].
  simpl. rewrite IH. apply listener_dialled.
Qed.

Lemma deliver_destroyed (evs : list socketEvent) (st : probe) :
  destroyed st = true -> destroyed (deliver evs st) = true.
Proof.
  revert st. induction evs as [| ev evs IH]; intros st H; [exact H |].
  simpl. apply IH, listener_destroyed.
Qed.

(** Delivering events only adds to the trace. *)
Lemma deliver_trace (evs : list socketEvent) (st : probe) :
  exists after, trace (deliver evs st) = (trace st ++ after)%list.
Proof.
  revert st. induction evs as [| ev evs IH]; intros st.
  - exists []. simpl. rewrite app_nil_r. reflexivity.
  - simpl. destruct (IH (listener ev st)) as [after Hafter].
    rewrite Hafter, listener_trace, <- app_assoc. eexists. reflexivity.
Qed.

Section Probe.

Variable h : Host.
Variable server : value.

(** The probe, case by case. *)
Lemma probe_inference_throws (e : Error) :
  inferPort server = Throw e ->
  checkMCPServerConnection h server = resolve byCatch false newProbe.
Proof.
  intros H. unfold checkMCPServerConnection, newPromise, executor, executorTry.
  rewrite H. reflexivity.
Qed.

Lemma probe_connect_throws (port : number) (e : Error) :
  inferPort server = Ok port ->
  thrown (netConnect h port "localhost") = Some e ->
  checkMCPServerConnection h server
  = deliver (emitted (netConnect h port "localhost")) (resolve byCatch false (dialling port)).
Proof.
  intros H Ht.
  unfold checkMCPServerConnection, newPromise, executor, executorTry.
  rewrite H, Ht. reflexivity.
Qed.

Lemma probe_connect_returns (port : number) :
  inferPort server = Ok port ->
  thrown (netConnect h port "localhost") = None ->
  checkMCPServerConnection h server
  = deliver (emitted (netConnect h port "localhost")) (dialling port).
Proof.
  intros H Ht.
  unfold checkMCPServerConnection, newPromise, executor, executorTry.
  rewrite H, Ht. reflexivity.
Qed.

(** The promise of the probe is never rejected. *)
Lemma probe_never_rejects (e : Error) :
  settled (checkMCPServerConnection h server) <> Rejected e.
Proof.
  destruct (inferPort server) as [port | e0] eqn:Hport.
  - destruct (thrown (netConnect h port "localhost")) as [e1 |] eqn:Ht.
    + rewrite (probe_connect_throws port e1 Hport Ht).
      destruct (deliver_settled (emitted (netConnect h port "localhost"))
                  (resolve byCatch false (dialling port))) as [-> _];
        simpl; discriminate.
    + rewrite (probe_connect_returns port Hport Ht).
      destruct (emitted (netConnect h port "localhost")) as [| ev evs].
      * simpl. discriminate.
      * simpl.
        destruct (listener_pending ev (dialling port) eq_refl) as [Hs _].
        destruct (deliver_settled evs (listener ev (dialling port))) as [-> _];
          rewrite Hs; discriminate.
  - rewrite (probe_inference_throws e0 Hport). simpl. discriminate.
Qed.

(** A fault inside the executor is answered by [resolve(false)]. *)
Lemma probe_fault_resolves_false (e : Error) :
  (inferPort server = Throw e \/
   exists port, inferPort server = Ok port /\ thrown (netConnect h port "localhost") = Some e) ->
  settled (checkMCPServerConnection h server) = Fulfilled false /\
  settledBy (checkMCPServerConnection h server) = Some byCatch.
Proof.
  intros [H | [port [H Ht]]].
  - rewrite (probe_inference_throws e H). split; reflexivity.
  - rewrite (probe_connect_throws port e H Ht).
    destruct (deliver_settled (emitted (netConnect h port "localhost"))
                (resolve byCatch false (dialling port))) as [-> ->];
      [simpl; discriminate | split; reflexivity].
Qed.

(** Once [connect] was called with [port], the call is in the trace. *)
Lemma probe_dials (port : number) :
  inferPort server = Ok port ->
  In (SocketConnect port "localhost") (trace (checkMCPServerConnection h server)).
Proof.
  intros Hport.
  destruct (thrown (netConnect h port "localhost")) as [e |] eqn:Ht.
  - rewrite (probe_connect_throws port e Hport Ht).
    destruct (deliver_trace (emitted (netConnect h port "localhost"))
                (resolve byCatch false (dialling port))) as [after ->].
    apply in_or_app. left. simpl. tauto.
  - rewrite (probe_connect_returns port Hport Ht).
    destruct (deliver_trace (emitted (netConnect h port "localhost")) (dialling port))
      as [after ->].
    apply in_or_app. left. simpl. tauto.
Qed.

(** When the connect does not get through, the probe resolves to [false]. *)
Lemma probe_connect_fails (port : number) :
  inferPort server = Ok port ->
  connectFails (netConnect h port "localhost") ->
  settled (checkMCPServerConnection h server) = Fulfilled false.
Proof.
  intros Hport Hfail.
  destruct (thrown (netConnect h port "localhost")) as [e |] eqn:Ht.
  - apply (probe_fault_resolves_false e).
    right. exists port. split; assumption.
  - destruct Hfail as [Hthrow | [ev [evs [Hev Hne]]]].
    + congruence.
    + rewrite (probe_connect_returns port Hport Ht), Hev. simpl.
      destruct (listener_pending ev (dialling port) eq_refl) as [Hs _].
      destruct (deliver_settled evs (listener ev (dialling port))) as [-> _].
      * rewrite Hs. discriminate.
      * rewrite Hs. destruct ev; try reflexivity. contradiction.
Qed.

End Probe.

(** C9, as amended: on each of the three listener paths the socket is
    destroyed and then [resolve] is called; a listener that runs after the
    promise is settled changes neither the result nor who settled it; and
    in every execution where [socket.connect] returns without throwing
    and the socket emits at least one event, the first event emitted, and
    nothing else, resolves the result, with the socket destroyed before
    that. *)
Theorem first_event_resolves_probe :
  (forall (ev : socketEvent) (st : probe),
      trace (listener ev st)
      = (trace st ++ [SocketDestroy; Resolve (byListener ev) (eventResult ev)])%list
      /\ destroyed (listener ev st) = true)
  /\
  (forall (ev : socketEvent) (st : probe),
      settled st <> Pending ->
      settled (listener ev st) = settled st /\
      settledBy (listener ev st) = settledBy st)
  /\
  (forall (h : Host) (server : value) (port : number)
          (ev : socketEvent) (evs : list socketEvent),
      inferPort server = Ok port ->
      thrown (netConnect h port "localhost") = None ->
      emitted (netConnect h port "localhost") = ev :: evs ->
      let st := checkMCPServerConnection h server in
      settled st = Fulfilled (eventResult ev) /\
      settledBy st = Some (byListener ev) /\
      destroyed st = true /\
      exists before after,
        trace st
        = (before
             ++ SocketDestroy :: Resolve (byListener ev) (eventResult ev) :: after)%list
        /\ unresolved before).
Proof.
  split; [| split].
  - intros ev st. split; [apply listener_trace | apply listener_destroyed].
  - exact listener_settled.
  - intros h server port ev evs Hport Ht Hev st. subst st.
    rewrite (probe_connect_returns h server port Hport Ht), Hev. simpl.
    destruct (listener_pending ev (dialling port) eq_refl) as [Hs Hb].
    assert (Hset : settled (listener ev (dialling port)) <> Pending)
      by (rewrite Hs; discriminate).
    destruct (deliver_settled evs _ Hset) as [-> ->].
    split; [exact Hs |]. split; [exact Hb |]. split.
    + apply deliver_destroyed, listener_destroyed.
    + destruct (deliver_trace evs (listener ev (dialling port))) as [after Hafter].
      exists (trace (dialling port)), after.
      rewrite Hafter, listener_trace, <- app_assoc. split; [reflexivity |].
      intros who b Hin. simpl in Hin.
      repeat (destruct Hin as [Hin | Hin]; [discriminate Hin |]).
      exact Hin.
Qed.

Lemma first_event_resolves_probe_witness :
  let h :=
    mkHost "linux" (fun _ => ExecCallback None)
      (fun _ _ => mkConnectOutcome None [ev_connect; ev_timeout]) in
  let st := checkMCPServerConnection h (toValue (mkServer "node" [] None)) in
  settled st = Fulfilled true /\
  settledBy st = Some (byListener ev_connect) /\
  settled (listener ev_timeout st) = Fulfilled true.
Proof.
  cbv zeta.
  set (h := mkHost "linux" (fun _ => ExecCallback None)
              (fun _ _ => mkConnectOutcome None [ev_connect; ev_timeout])).
  set (server := toValue (mkServer "node" [] None)).
  destruct (proj2 (proj2 first_event_resolves_probe) h server (Num 8080)
              ev_connect [ev_timeout] eq_refl eq_refl eq_refl)
    as [Hs [Hb _]].
  split; [exact Hs |]. split; [exact Hb |].
  destruct (proj1 (proj2 first_event_resolves_probe) ev_timeout
              (checkMCPServerConnection h server)) as [Hl _].
  - rewrite Hs. discriminate.
  - rewrite Hl. exact Hs.
Defined.

(** C9 fails as stated: on a port that [socket.connect] refuses with a
    throw, none of the three outcomes resolves the result; the [catch]
    block does, and the socket is not destroyed before that. *)
Lemma connect_throw_resolves_in_catch :
  let h := nodeHost ["node"] [] in
  let d := mkServer "node" [] (Some [("MCP_PORT", "70000")]) in
  let st := checkMCPServerConnection h (toValue d) in
  settledBy st = Some byCatch /\
  (forall ev, settledBy st <> Some (byListener ev)) /\
  trace st
  = [ProbeCalled; NewSocket; SetTimeout 1000;
     SocketConnect (Num 70000) "localhost";
     Resolve byCatch false;
     SocketDestroy; Resolve (byListener ev_timeout) false].
Proof.
  cbv zeta. split; [reflexivity |]. split; [| reflexivity].
  intros ev H. discriminate H.
Qed.

(** C10: a port other than 0 and NaN is kept, negative ones included; with
    [env.MCP_PORT = "-1"] the probe calls [socket.connect] with port -1,
    its promise is never rejected, and when the connect does not get
    through (it throws, or the first event is not [connect]) the promise
    resolves to [false]. *)
Theorem negative_port_is_probed :
  (forall p : number, falsyNumber p = false -> defaultPort p = p)
  /\
  (forall (h : Host) (server envv : value),
      Get server p_env = Ok envv ->
      Get envv p_MCP_PORT = Ok (VString "-1") ->
      let st := checkMCPServerConnection h server in
      inferPort server = Ok (Num (-1)) /\
      In (SocketConnect (Num (-1)) "localhost") (trace st) /\
      (forall e, settled st <> Rejected e) /\
      (connectFails (netConnect h (Num (-1)) "localhost") ->
       settled st = Fulfilled false)).
Proof.
  split; [exact defaultPort_truthy |].
  intros h server envv Henv Hport st.
  assert (Hinfer : inferPort server = Ok (Num (-1))).
  { apply (inferPort_env server envv (VString "-1") (-1) Henv Hport);
      [reflexivity | lia]. }
  subst st. split; [exact Hinfer |]. split; [| split].
  - apply probe_dials. exact Hinfer.
  - intros e. apply probe_never_rejects.
  - apply probe_connect_fails. exact Hinfer.
Qed.

Lemma negative_port_is_probed_witness :
  let h := nodeHost ["node"] [] in
  let server := toValue (mkServer "node" [] (Some [("MCP_PORT", "-1")])) in
  defaultPort (Num (-1)) = Num (-1) /\
  inferPort server = Ok (Num (-1)) /\
  settled (checkMCPServerConnection h server) = Fulfilled false.
Proof.
  cbv zeta.
  split; [apply (proj1 negative_port_is_probed); reflexivity |].
  destruct (proj2 negative_port_is_probed (nodeHost ["node"] [])
              (toValue (mkServer "node" [] (Some [("MCP_PORT", "-1")])))
              (VObject [("MCP_PORT", VString "-1")]) eq_refl eq_refl)
    as [Hport [_ [_ Hfalse]]].
  split; [exact Hport |].
  apply Hfalse. left. simpl. discriminate.
Defined.

(** ** The handler *)

Lemma availability_line (h : Host) (command : value) :
  checkCommandAvailability h command
  = (match exec h (resolverLine h command) with
     | ExecThrows e => Rejected e
     | ExecCallback (Some _) => Fulfilled false
     | ExecCallback None => Fulfilled true
     | ExecNoCallback => Pending
     end,
     [Exec (resolverLine h command)]).
Proof. reflexivity. Qed.

(** The handler when the command is missing. *)
Lemma pingServer_unavailable (h : Host) (serverId : string) (server : value) :
  commandUnavailable h server ->
  exists cmd,
    pingServer h serverId server
    = (Fulfilled (mkResult false (Some "Command not available")),
       [Exec (resolverLine h cmd)]).
Proof.
  intros [cmd [err [Hcmd Hexec]]]. exists cmd.
  unfold pingServer, pingServerTry. rewrite Hcmd, availability_line, Hexec.
  reflexivity.
Qed.

(** The handler when the command is there: the result is what the probe
    settles to. *)
Lemma pingServer_available (h : Host) (serverId : string) (server : value) :
  commandAvailable h server ->
  fst (pingServer h serverId server)
  = match settled (checkMCPServerConnection h server) with
    | Fulfilled b => Fulfilled (mkResult b None)
    | Rejected e => Fulfilled (mkResult false (Some (message e)))
    | Pending => Pending
    end.
Proof.
  intros [cmd [Hcmd Hexec]].
  unfold pingServer, pingServerTry. rewrite Hcmd, availability_line, Hexec.
  simpl. destruct (settled (checkMCPServerConnection h server)); reflexivity.
Qed.

(** C1: when the shell cannot resolve [server.command], the handler
    returns [{success: false, error: "Command not available"}], and
    neither [checkMCPServerConnection] nor [socket.connect] is called. *)
Theorem unavailable_command_skips_probe
    (h : Host) (serverId : string) (server : value) :
  commandUnavailable h server ->
  fst (pingServer h serverId server)
  = Fulfilled (mkResult false (Some "Command not available")) /\
  ~ In ProbeCalled (snd (pingServer h serverId server)) /\
  (forall port host,
      ~ In (SocketConnect port host) (snd (pingServer h serverId server))).
Proof.
  intros Hun.
  destruct (pingServer_unavailable h serverId server Hun) as [cmd ->].
  simpl. split; [reflexivity |]. split.
  - intros [H | []]. discriminate H.
  - intros port host [H | []]. discriminate H.
Qed.

Lemma unavailable_command_skips_probe_witness :
  let h := nodeHost ["node"] [8080] in
  let server := toValue (mkServer "uvx" ["--port=8080"] None) in
  fst (pingServer h "weather" server)
  = Fulfilled (mkResult false (Some "Command not available")) /\
  ~ In ProbeCalled (snd (pingServer h "weather" server)).
Proof.
  cbv zeta.
  destruct (unavailable_command_skips_probe (nodeHost ["node"] [8080]) "weather"
              (toValue (mkServer "uvx" ["--port=8080"] None)))
    as [Hres [Hprobe _]].
  - exists (VString "uvx"), (mkError "Error" "Command failed: which uvx").
    split; reflexivity.
  - split; assumption.
Defined.

(** C5, as amended: the promise of the handler is never rejected; a fault
    thrown outside the probe (reading [server.command], or in the
    availability check) comes back as [{success: false, error: message}];
    a fault thrown inside the probe is caught there and comes back as
    [{success: false}], without the message. *)
Theorem pingServer_never_rejects :
  (forall (h : Host) (serverId : string) (server : value) (e : Error),
      fst (pingServer h serverId server) <> Rejected e)
  /\
  (forall (h : Host) (serverId : string) (server : value) (e : Error),
      faultOutsideProbe h server e ->
      fst (pingServer h serverId server)
      = Fulfilled (mkResult false (Some (message e))))
  /\
  (forall (h : Host) (serverId : string) (server : value) (e : Error),
      faultInsideProbe h server e ->
      fst (pingServer h serverId server) = Fulfilled (mkResult false None)).
Proof.
  split; [| split].
  - intros h serverId server e.
    unfold pingServer, pingServerTry.
    destruct (Get server p_command) as [cmd | e0]; [| simpl; discriminate].
    rewrite availability_line.
    destruct (exec h (resolverLine h cmd)) as [e1 | [err |] |];
      simpl; try discriminate.
    destruct (settled (checkMCPServerConnection h server));
      simpl; discriminate.
  - intros h serverId server e [Hcmd | [cmd [Hcmd Hexec]]];
      unfold pingServer, pingServerTry; rewrite Hcmd.
    + reflexivity.
    + rewrite availability_line, Hexec. reflexivity.
  - intros h serverId server e [Hav Hfault].
    rewrite (pingServer_available h serverId server Hav).
    destruct (probe_fault_resolves_false h server e Hfault) as [-> _].
    reflexivity.
Qed.

Lemma pingServer_never_rejects_witness :
  let h := nodeHost ["node"] [] in
  fst (pingServer h "a" VNull)
  = Fulfilled (mkResult false
                 (Some "Cannot read properties of null (reading 'command')"))
  /\
  fst (pingServer h "b" (toValue (mkServer "node" [] (Some [("MCP_PORT", "70000")]))))
  = Fulfilled (mkResult false None).
Proof.
  cbv zeta. split.
  - apply (proj1 (proj2 pingServer_never_rejects) (nodeHost ["node"] []) "a" VNull
             (TypeError "Cannot read properties of null (reading 'command')")).
    left. reflexivity.
  - apply (proj2 (proj2 pingServer_never_rejects) (nodeHost ["node"] []) "b"
             (toValue (mkServer "node" [] (Some [("MCP_PORT", "70000")])))
             (mkError "RangeError" "Port should be >= 0 and < 65536.")).
    split.
    + exists (VString "node"). split; reflexivity.
    + right. exists (Num 70000). split; reflexivity.
Defined.

(** C5 fails as stated: a [null] among [args] makes [includes] throw
    inside the probe; the handler answers [{success: false}] and the
    message of the fault is lost. *)
Lemma fault_inside_probe_loses_message :
  let h := nodeHost ["node"] [] in
  let server := VObject [("command", VString "node"); ("args", VArray [VNull])] in
  let e := TypeError "Cannot read properties of null (reading 'includes')" in
  faultRaised h server e /\
  fst (pingServer h "srv" server) = Fulfilled (mkResult false None) /\
  fst (pingServer h "srv" server) <> Fulfilled (mkResult false (Some (message e))).
Proof.
  cbv zeta. split; [| split].
  - right. split.
    + exists (VString "node"). split; reflexivity.
    + left. reflexivity.
  - reflexivity.
  - intros H. discriminate H.
Qed.

(** C6: in every result the handler returns, [error] is there only when
    [success] is false; when the command is available and the probe
    resolves to [false] the result is [{success: false}] with no [error],
    and when the command is missing it is [{success: false, error:
    "Command not available"}], so the two cannot be confused. *)
Theorem result_shape
    (h : Host) (serverId : string) (server : value) (r : HealthCheckResult) :
  fst (pingServer h serverId server) = Fulfilled r ->
  (error r <> None -> success r = false) /\
  (commandAvailable h server ->
   settled (checkMCPServerConnection h server) = Fulfilled false ->
   r = mkResult false None) /\
  (commandUnavailable h server ->
   r = mkResult false (Some "Command not available")).
Proof.
  intros Hr. split; [| split].
  - revert Hr. unfold pingServer, pingServerTry.
    destruct (Get server p_command) as [cmd | e0].
    + rewrite availability_line.
      destruct (exec h (resolverLine h cmd)) as [e1 | [err |] |]; simpl;
        try (intros H; injection H as <-; reflexivity);
        try discriminate.
      destruct (settled (checkMCPServerConnection h server)); simpl;
        try discriminate;
        intros H; injection H as <-; simpl; try reflexivity.
      intros Habs. contradiction.
    + simpl. intros H. injection H as <-. reflexivity.
  - intros Hav Hprobe.
    rewrite (pingServer_available h serverId server Hav), Hprobe in Hr.
    injection Hr as <-. reflexivity.
  - intros Hun.
    destruct (pingServer_unavailable h serverId server Hun) as [cmd Hp].
    rewrite Hp in Hr. simpl in Hr. injection Hr as <-. reflexivity.
Qed.

Lemma result_shape_witness :
  let h := nodeHost ["node"] [] in
  let server := toValue (mkServer "node" ["--port=3000"] None) in
  fst (pingServer h "files" server) = Fulfilled (mkResult false None) /\
  (error (mkResult false None) <> None -> success (mkResult false None) = false) /\
  (commandUnavailable h server ->
   mkResult false None = mkResult false (Some "Command not available")).
Proof.
  cbv zeta. split; [reflexivity |].
  destruct (result_shape (nodeHost ["node"] []) "files"
              (toValue (mkServer "node" ["--port=3000"] None))
              (mkResult false None) eq_refl) as [Hshape [_ Hmissing]].
  split; assumption.
Defined.

(** * Further properties of the health check *)

Lemma defaultPort_not_falsy (p : number) :
  falsyNumber (defaultPort p) = false /\ isNaN (defaultPort p) = false.
Proof.
  unfold defaultPort.
  destruct p as [| neg | z]; simpl; try (split; reflexivity).
  destruct z; split; reflexivity.
Qed.

(** Whatever port inference returns is neither 0 nor NaN. *)
Lemma inferPort_not_falsy (server : value) (p : number) :
  inferPort server = Ok p -> falsyNumber p = false /\ isNaN p = false.
Proof.
  unfold inferPort.
  destruct (portFromEnv server (Num 0)) as [p1 | e1]; simpl; [| discriminate].
  destruct (portFromArgs server p1) as [p2 | e2]; simpl; [| discriminate].
  intros H. injection H as <-. apply defaultPort_not_falsy.
Qed.

(** On strings the loop never throws. *)
Lemma scanArgs_strings (l : list string) (port : number) :
  exists q, scanArgs (map VString l) port = Ok q.
Proof.
  induction l as [| s l IH]; simpl.
  - exists port. reflexivity.
  - destruct (includesString "--port=" s); simpl.
    + eexists. reflexivity.
    + destruct (String.eqb s "--port" && _); [eexists; reflexivity | exact IH].
Qed.

(** Port inference on a definition that conforms to the data model
    returns a port, which is neither 0 nor NaN; so on such a definition
    the [catch] block of the probe is reached only when [socket.connect]
    itself throws. *)
Theorem conforming_definition_infers_port :
  (forall d : ServerDefinition,
      exists p, inferPort (toValue d) = Ok p /\
                falsyNumber p = false /\ isNaN p = false)
  /\
  (forall (h : Host) (d : ServerDefinition),
      settledBy (checkMCPServerConnection h (toValue d)) = Some byCatch ->
      exists port e,
        inferPort (toValue d) = Ok port /\
        thrown (netConnect h port "localhost") = Some e).
Proof.
  assert (Hok : forall d : ServerDefinition, exists p, inferPort (toValue d) = Ok p).
  { intros d. unfold inferPort. rewrite portFromEnv_toValue. simpl.
    set (p1 := match mcpPortOf d with
               | Some s => if String.eqb s "" then Num 0 else parseIntString s
               | None => Num 0
               end).
    destruct (falsyNumber p1) eqn:Hp1.
    - rewrite (portFromArgs_scanArgs _ _ p1 (args_toValue d) Hp1).
      destruct (scanArgs_strings (args d) p1) as [q ->]. simpl.
      eexists. reflexivity.
    - unfold portFromArgs. rewrite Hp1. simpl. eexists. reflexivity. }
  split.
  - intros d. destruct (Hok d) as [p Hp]. exists p. split; [exact Hp |].
    exact (inferPort_not_falsy _ _ Hp).
  - intros h d Hby. destruct (Hok d) as [port Hport]. exists port.
    destruct (thrown (netConnect h port "localhost")) as [e |] eqn:Ht.
    + exists e. split; [exact Hport | reflexivity].
    + exfalso. rewrite (probe_connect_returns h _ port Hport Ht) in Hby.
      destruct (emitted (netConnect h port "localhost")) as [| ev evs].
      * simpl in Hby. discriminate Hby.
      * simpl in Hby.
        destruct (listener_pending ev (dialling port) eq_refl) as [Hs Hb].
        destruct (deliver_settled evs (listener ev (dialling port))) as [_ Hb'].
        -- rewrite Hs. discriminate.
        -- rewrite Hb', Hb in Hby. discriminate Hby.
Qed.

Lemma conforming_definition_infers_port_witness :
  let h := nodeHost ["node"] [] in
  let d := mkServer "node" ["--port"; "70000"] None in
  exists port e,
    inferPort (toValue d) = Ok port /\
    thrown (netConnect h port "localhost") = Some e.
Proof.
  cbv zeta.
  apply (proj2 conforming_definition_infers_port (nodeHost ["node"] [])
           (mkServer "node" ["--port"; "70000"] None)).
  reflexivity.
Defined.

Lemma deliver_afterDial (evs : list socketEvent) (st : probe) :
  exists rest,
    trace (deliver evs st) = (trace st ++ rest)%list /\
    Forall (fun e => afterDial e = true) rest.
Proof.
  revert st. induction evs as [| ev evs IH]; intros st.
  - exists []. simpl. rewrite app_nil_r. split; [reflexivity | constructor].
  - simpl. destruct (IH (listener ev st)) as [rest [Ht Hall]].
    rewrite Ht, listener_trace, <- app_assoc. eexists. split; [reflexivity |].
    simpl. repeat constructor. exact Hall.
Qed.

(** Every probe begins by being called. *)
Lemma probe_trace_starts (h : Host) (server : value) :
  exists rest, trace (checkMCPServerConnection h server) = ProbeCalled :: rest.
Proof.
  destruct (inferPort server) as [port | e] eqn:Hport.
  - destruct (thrown (netConnect h port "localhost")) as [e |] eqn:Ht.
    + rewrite (probe_connect_throws h server port e Hport Ht).
      destruct (deliver_trace (emitted (netConnect h port "localhost"))
                  (resolve byCatch false (dialling port))) as [after ->].
      eexists. reflexivity.
    + rewrite (probe_connect_returns h server port Hport Ht).
      destruct (deliver_trace (emitted (netConnect h port "localhost"))
                  (dialling port)) as [after ->].
      eexists. reflexivity.
  - rewrite (probe_inference_throws h server e Hport). eexists. reflexivity.
Qed.

(** The trace of a probe has one of two shapes.  When port inference
    throws, no socket is made.  Otherwise one socket is made, its timeout
    is set to 1000 ms, and [connect] is called once, on localhost, with
    the inferred port, which is neither 0 nor NaN; all that follows is
    [destroy] and [resolve]. *)
Theorem probe_trace_shape (h : Host) (server : value) :
  (exists e,
      inferPort server = Throw e /\
      trace (checkMCPServerConnection h server)
      = [ProbeCalled; Resolve byCatch false])
  \/
  (exists port rest,
      inferPort server = Ok port /\
      falsyNumber port = false /\ isNaN port = false /\
      trace (checkMCPServerConnection h server)
      = ([ProbeCalled; NewSocket; SetTimeout 1000;
          SocketConnect port "localhost"] ++ rest)%list /\
      Forall (fun e => afterDial e = true) rest).
Proof.
  destruct (inferPort server) as [port | e] eqn:Hport.
  - right. destruct (inferPort_not_falsy _ _ Hport) as [Hf Hn].
    destruct (thrown (netConnect h port "localhost")) as [e |] eqn:Ht.
    + rewrite (probe_connect_throws h server port e Hport Ht).
      destruct (deliver_afterDial (emitted (netConnect h port "localhost"))
                  (resolve byCatch false (dialling port))) as [rest [-> Hall]].
      exists port, (Resolve byCatch false :: rest).
      repeat split; try assumption. constructor; [reflexivity | exact Hall].
    + rewrite (probe_connect_returns h server port Hport Ht).
      destruct (deliver_afterDial (emitted (netConnect h port "localhost"))
                  (dialling port)) as [rest [-> Hall]].
      exists port, rest. repeat split; assumption.
  - left. exists e. split; [reflexivity |].
    rewrite (probe_inference_throws h server e Hport). reflexivity.
Qed.

(** What the promise of the probe settles to. *)
Lemma probe_settled (h : Host) (server : value) :
  settled (checkMCPServerConnection h server)
  = match inferPort server with
    | Throw _ => Fulfilled false
    | Ok port =>
        match thrown (netConnect h port "localhost") with
        | Some _ => Fulfilled false
        | None =>
            match emitted (netConnect h port "localhost") with
            | [] => Pending
            | ev :: _ => Fulfilled (eventResult ev)
            end
        end
    end.
Proof.
  destruct (inferPort server) as [port | e] eqn:Hport.
  - destruct (thrown (netConnect h port "localhost")) as [e |] eqn:Ht.
    + apply (probe_fault_resolves_false h server e).
      right. exists port. split; assumption.
    + rewrite (probe_connect_returns h server port Hport Ht).
      destruct (emitted (netConnect h port "localhost")) as [| ev evs];
        [reflexivity |].
      simpl. destruct (listener_pending ev (dialling port) eq_refl) as [Hs _].
      destruct (deliver_settled evs (listener ev (dialling port))) as [-> _];
        [rewrite Hs; discriminate | exact Hs].
  - rewrite (probe_inference_throws h server e Hport). reflexivity.
Qed.

(** The handler, outcome by outcome of the availability check. *)
Lemma pingServer_cases (h : Host) (serverId : string) (server : value) :
  pingServer h serverId server
  = match Get server p_command with
    | Throw e => (Fulfilled (mkResult false (Some (message e))), [])
    | Ok cmd =>
        match exec h (resolverLine h cmd) with
        | ExecThrows e =>
            (Fulfilled (mkResult false (Some (message e))),
             [Exec (resolverLine h cmd)])
        | ExecCallback (Some _) =>
            (Fulfilled (mkResult false (Some "Command not available")),
             [Exec (resolverLine h cmd)])
        | ExecNoCallback => (Pending, [Exec (resolverLine h cmd)])
        | ExecCallback None =>
            (match settled (checkMCPServerConnection h server) with
             | Fulfilled b => Fulfilled (mkResult b None)
             | Rejected e => Fulfilled (mkResult false (Some (message e)))
             | Pending => Pending
             end,
             Exec (resolverLine h cmd) :: trace (checkMCPServerConnection h server))
        end
    end.
Proof.
  unfold pingServer, pingServerTry.
  destruct (Get server p_command) as [cmd | e]; [| reflexivity].
  rewrite availability_line.
  destruct (exec h (resolverLine h cmd)) as [e | [err |] |]; try reflexivity.
  simpl. destruct (settled (checkMCPServerConnection h server)); reflexivity.
Qed.

(** The handler leaves its caller without an answer in two cases only:
    [exec] never calls back, or the command is available and the socket,
    asked to connect without a throw, never emits an event. *)
Theorem pingServer_pending_iff (h : Host) (serverId : string) (server : value) :
  fst (pingServer h serverId server) = Pending
  <->
  exists cmd,
    Get server p_command = Ok cmd /\
    (exec h (resolverLine h cmd) = ExecNoCallback \/
     (exec h (resolverLine h cmd) = ExecCallback None /\
      exists port,
        inferPort server = Ok port /\
        thrown (netConnect h port "localhost") = None /\
        emitted (netConnect h port "localhost") = [])).
Proof.
  rewrite pingServer_cases, (probe_settled h server). split.
  - destruct (Get server p_command) as [cmd | e]; [| discriminate].
    intros H. exists cmd. split; [reflexivity |].
    destruct (exec h (resolverLine h cmd)) as [e | [err |] |];
      try discriminate H; [| left; reflexivity].
    right. split; [reflexivity |].
    destruct (inferPort server) as [port | e]; [| discriminate H].
    exists port. split; [reflexivity |].
    destruct (thrown (netConnect h port "localhost")); [discriminate H |].
    destruct (emitted (netConnect h port "localhost")); [| discriminate H].
    split; reflexivity.
  - intros [cmd [-> [-> | [-> [port [-> [-> ->]]]]]]]; reflexivity.
Qed.

(** The handler reports success exactly when the command is available,
    [socket.connect] returns without a throw and the first event of the
    socket is [connect]. *)
Theorem pingServer_success_iff (h : Host) (serverId : string) (server : value) :
  (exists r, fst (pingServer h serverId server) = Fulfilled r /\ success r = true)
  <->
  (commandAvailable h server /\
   exists port evs,
     inferPort server = Ok port /\
     thrown (netConnect h port "localhost") = None /\
     emitted (netConnect h port "localhost") = ev_connect :: evs).
Proof.
  rewrite pingServer_cases, (probe_settled h server). split.
  - intros [r [H Hr]].
    destruct (Get server p_command) as [cmd | e] eqn:Hcmd;
      [| injection H as <-; discriminate Hr].
    destruct (exec h (resolverLine h cmd)) as [e | [err |] |] eqn:Hexec;
      try (injection H as <-; discriminate Hr); try discriminate H.
    split; [exists cmd; split; [exact Hcmd | exact Hexec] |].
    simpl in H.
    destruct (inferPort server) as [port | e];
      [| injection H as <-; discriminate Hr].
    exists port.
    destruct (thrown (netConnect h port "localhost"));
      [injection H as <-; discriminate Hr |].
    destruct (emitted (netConnect h port "localhost")) as [| ev evs];
      [discriminate H |].
    exists evs. injection H as <-. simpl in Hr.
    destruct ev; try discriminate Hr. repeat split.
  - intros [[cmd [Hcmd Hexec]] [port [evs [Hport [Ht Hev]]]]].
    rewrite Hcmd, Hexec, Hport, Ht, Hev. simpl.
    exists (mkResult true None). split; reflexivity.
Qed.

(** [checkMCPServerConnection] is called exactly when the availability
    check answered that the command is there; in every other case (the
    command is missing, [exec] throws or never calls back, the definition
    is [null]) no socket is made: the only effect, if any, is the call of
    [exec]. *)
Theorem probe_called_iff_available
    (h : Host) (serverId : string) (server : value) :
  (In ProbeCalled (snd (pingServer h serverId server))
   <-> commandAvailable h server)
  /\
  (~ commandAvailable h server ->
   Forall (fun e => exists line, e = Exec line)
          (snd (pingServer h serverId server))).
Proof.
  rewrite pingServer_cases. unfold commandAvailable. split; [split |].
  - destruct (Get server p_command) as [cmd | e]; [| intros []].
    destruct (exec h (resolverLine h cmd)) as [e | [err |] |] eqn:Hexec; simpl;
      try (intros [H | []]; discriminate H).
    intros _. exists cmd. split; [reflexivity | exact Hexec].
  - intros [cmd [-> ->]]. simpl. right.
    destruct (probe_trace_starts h server) as [rest ->]. left. reflexivity.
  - intros Hnot.
    destruct (Get server p_command) as [cmd | e]; [| constructor].
    destruct (exec h (resolverLine h cmd)) as [e | [err |] |] eqn:Hexec; simpl;
      try (constructor; [eexists; reflexivity | constructor]).
    exfalso. apply Hnot. exists cmd. split; [reflexivity | exact Hexec].
Qed.

(** ** The value of a one-token specifier *)

Lemma splitString_upTo (sep : ascii) (s : string) :
  exists later, splitString sep s = upTo sep s :: later.
Proof.
  induction s as [| c r [later IH]]; simpl.
  - exists []. reflexivity.
  - destruct (Ascii.eqb c sep).
    + eexists. reflexivity.
    + rewrite IH. eexists. reflexivity.
Qed.

Lemma splitString_afterFirst (sep : ascii) (s rest : string) :
  afterFirst sep s = Some rest ->
  exists pre, splitString sep s = pre :: splitString sep rest.
Proof.
  revert rest. induction s as [| c r IH]; simpl; intros rest H; [discriminate H |].
  destruct (Ascii.eqb c sep).
  - injection H as <-. eexists. reflexivity.
  - destruct (IH rest H) as [pre ->]. eexists. reflexivity.
Qed.

Lemma trimStart_upTo (t : string) :
  trimStart (upTo "=" t) = upTo "=" (trimStart t).
Proof.
  induction t as [| c r IH]; [reflexivity |].
  simpl. destruct (Ascii.eqb_spec c "=") as [-> | Hne].
  - reflexivity.
  - simpl. destruct (isWhiteSpace c); [exact IH |].
    simpl. destruct (Ascii.eqb_spec c "="); [contradiction | reflexivity].
Qed.

Lemma leadingDigits_upTo (t : string) :
  leadingDigits (upTo "=" t) = leadingDigits t.
Proof.
  induction t as [| c r IH]; [reflexivity |].
  simpl. destruct (Ascii.eqb_spec c "=") as [-> | Hne]; [reflexivity |].
  simpl. rewrite IH. reflexivity.
Qed.

(** [parseInt] does not look past an [=]. *)
Lemma parseIntString_upTo (t : string) :
  parseIntString (upTo "=" t) = parseIntString t.
Proof.
  unfold parseIntString. rewrite trimStart_upTo.
  destruct (trimStart t) as [| c r]; [reflexivity |].
  destruct c as [[] [] [] [] [] [] [] []];
    cbn [upTo Ascii.eqb Bool.eqb andb];
    rewrite <- ?(leadingDigits_upTo r);
    cbn [leadingDigits upTo Ascii.eqb Bool.eqb andb isDigit codeUnit];
    rewrite ?leadingDigits_upTo; reflexivity.
Qed.

(** For an element that holds an [=], the number the loop reads from
    [split('=')[1]] is the number [parseInt] reads from all the text
    after the first [=]: what follows a second [=] never matters. *)
Theorem port_argument_is_text_after_equals (s rest : string) :
  afterFirst "=" s = Some rest ->
  parseInt (portArgOf s) = parseIntString rest.
Proof.
  intros H. unfold portArgOf, parseInt.
  destruct (splitString_afterFirst "=" s rest H) as [pre ->].
  destruct (splitString_upTo "=" rest) as [later ->].
  simpl. apply parseIntString_upTo.
Qed.

Lemma port_argument_is_text_after_equals_witness :
  parseInt (portArgOf "--port=3000=tcp") = parseIntString "3000=tcp".
Proof.
  apply (port_argument_is_text_after_equals "--port=3000=tcp" "3000=tcp").
  reflexivity.
Defined.

(** * The configuration handlers *)

Example stringify_indented :
  JSONstringify (VObject [("mcpServers", VObject [])]) 2
  = VString defaultConfigIndented.
Proof. reflexivity. Qed.

Example stringifyText_indented :
  stringifyText (VObject [("mcpServers", VObject [])]) 2
  = Some defaultConfigIndented.
Proof. reflexivity. Qed.

Example stringify_compact :
  JSONstringify (VObject [("mcpServers", VObject [])]) 0
  = VString defaultConfigCompact.
Proof. reflexivity. Qed.

Example stringify_nested :
  JSONstringify
    (VObject [("a", VArray [VNull; VUndefined; VString "x\y"; VBool true]);
              ("u", VUndefined);
              ("o", VObject [("k", VArray [])])]) 0
  = VString
      ("{" ++ quoteJSONString "a" ++ ":[null,null,"
         ++ String doubleQuote ("x\\y" ++ String doubleQuote ",true],")
         ++ quoteJSONString "o" ++ ":{" ++ quoteJSONString "k" ++ ":[]}}").
Proof. reflexivity. Qed.

Lemma fileAt_written (d : Disk) (p text q : string) :
  fileAt (mkDisk ((p, text) :: files d) (readFault d) (writeFault d)) q
  = if String.eqb q p then Some text else fileAt d q.
Proof. reflexivity. Qed.

Lemma fileAt_written_same (d : Disk) (p text : string) :
  fileAt (mkDisk ((p, text) :: files d) (readFault d) (writeFault d)) p
  = Some text.
Proof. rewrite fileAt_written, String.eqb_refl. reflexivity. Qed.

Lemma fileAt_written_other (d : Disk) (p text q : string) :
  q <> p ->
  fileAt (mkDisk ((p, text) :: files d) (readFault d) (writeFault d)) q
  = fileAt d q.
Proof.
  intros H. rewrite fileAt_written.
  destruct (String.eqb_spec q p); [contradiction | reflexivity].
Qed.

(** A file that is there and can be read is what both readers return,
    and the disk stays as it is. *)
Lemma readers_on_existing_file (a : App) (d : Disk) (data : string) :
  fileAt d (getClaudeConfigPath a) = Some data ->
  readFault d (getClaudeConfigPath a) = None ->
  getMcpConfig a d = (Fulfilled (VString data), d) /\
  getClaudeConfig a d = (Fulfilled (VString data), d).
Proof.
  intros Hfile Hread.
  unfold getMcpConfig, getMcpConfigTry, getClaudeConfig, getClaudeConfigTry,
    existsSync, readFile.
  rewrite Hfile, Hread. split; reflexivity.
Qed.

(** 'get-mcp-config' on a disk without the configuration file, when the
    file can be written: the answer is the default configuration on one
    line, the file is created with the default configuration indented by
    two, no other file changes, and the next call answers with the
    indented text, which is not the text the first call returned. *)
Theorem getMcpConfig_creates_default (a : App) (d : Disk) :
  existsSync d (getClaudeConfigPath a) = false ->
  writeFault d (getClaudeConfigPath a) = None ->
  let d' := snd (getMcpConfig a d) in
  fst (getMcpConfig a d) = Fulfilled (VString defaultConfigCompact) /\
  fileAt d' (getClaudeConfigPath a) = Some defaultConfigIndented /\
  (forall q, q <> getClaudeConfigPath a -> fileAt d' q = fileAt d q) /\
  (readFault d (getClaudeConfigPath a) = None ->
   getMcpConfig a d' = (Fulfilled (VString defaultConfigIndented), d')) /\
  defaultConfigCompact <> defaultConfigIndented.
Proof.
  intros Hmissing Hwrite.
  assert (Hrun : getMcpConfig a d
                 = (Fulfilled (VString defaultConfigCompact),
                    mkDisk ((getClaudeConfigPath a, defaultConfigIndented) :: files d)
                           (readFault d) (writeFault d))).
  { unfold getMcpConfig, getMcpConfigTry. rewrite Hmissing. simpl negb. cbv iota.
    rewrite stringifyText_indented, stringify_compact.
    unfold writeFileStringified, writeFile. rewrite Hwrite. reflexivity. }
  rewrite Hrun. cbv zeta. simpl fst. simpl snd.
  split; [reflexivity |]. split; [apply fileAt_written_same |].
  split; [intros q Hq; apply fileAt_written_other; exact Hq |]. split.
  - intros Hread.
    apply (proj1 (readers_on_existing_file a _ defaultConfigIndented
                    (fileAt_written_same d _ _) Hread)).
  - intros H. discriminate H.
Qed.

Lemma getMcpConfig_creates_default_witness :
  fst (getMcpConfig macApp emptyDisk) = Fulfilled (VString defaultConfigCompact) /\
  fileAt (snd (getMcpConfig macApp emptyDisk))
    "/Users/ada/Library/Application Support/Claude/claude_desktop_config.json"
  = Some defaultConfigIndented.
Proof.
  destruct (getMcpConfig_creates_default macApp emptyDisk eq_refl eq_refl)
    as [Hanswer [Hfile _]].
  split; [exact Hanswer | exact Hfile].
Defined.

(** Saving and reading back: when the file can be written and read,
    'save-mcp-config' answers [true] for any text, valid JSON or not, and
    after it both 'get-mcp-config' and 'get-claude-config' answer with
    that very text and leave the disk alone; no other file changes. *)
Theorem save_then_get (a : App) (d : Disk) (data : string) :
  writeFault d (getClaudeConfigPath a) = None ->
  readFault d (getClaudeConfigPath a) = None ->
  let d1 := snd (saveMcpConfig a data d) in
  fst (saveMcpConfig a data d) = Fulfilled (VBool true) /\
  getMcpConfig a d1 = (Fulfilled (VString data), d1) /\
  getClaudeConfig a d1 = (Fulfilled (VString data), d1) /\
  (forall q, q <> getClaudeConfigPath a -> fileAt d1 q = fileAt d q).
Proof.
  intros Hwrite Hread.
  assert (Hrun : saveMcpConfig a data d
                 = (Fulfilled (VBool true),
                    mkDisk ((getClaudeConfigPath a, data) :: files d)
                           (readFault d) (writeFault d))).
  { unfold saveMcpConfig, saveMcpConfigTry, writeFile. rewrite Hwrite. reflexivity. }
  rewrite Hrun. cbv zeta. simpl fst. simpl snd.
  split; [reflexivity |].
  destruct (readers_on_existing_file a _ data (fileAt_written_same d _ _) Hread)
    as [Hget Hclaude].
  split; [exact Hget |]. split; [exact Hclaude |].
  intros q Hq. apply fileAt_written_other. exact Hq.
Qed.

Lemma save_then_get_witness :
  let d1 := snd (saveMcpConfig linuxApp "not json at all" emptyDisk) in
  fst (getMcpConfig linuxApp d1) = Fulfilled (VString "not json at all").
Proof.
  cbv zeta.
  destruct (save_then_get linuxApp emptyDisk "not json at all" eq_refl eq_refl)
    as [_ [Hget _]].
  rewrite Hget. reflexivity.
Defined.

(** 'get-mcp-config' and 'save-mcp-config' hide the cause of a failure.
    The first is rejected exactly when the file is missing and cannot be
    written or is there and cannot be read; the second, given a text,
    exactly when the file cannot be written.  Either way the error the
    caller gets is always the same fixed one, whatever the fault was: a
    failed write of the default file is reported as a failure to read. *)
Theorem config_faults_are_masked (a : App) (d : Disk) :
  ((exists e, fst (getMcpConfig a d) = Rejected e)
   <-> (if existsSync d (getClaudeConfigPath a)
        then readFault d (getClaudeConfigPath a) <> None
        else writeFault d (getClaudeConfigPath a) <> None))
  /\
  (forall e, fst (getMcpConfig a d) = Rejected e ->
             e = mkError "Error" "Failed to read configuration")
  /\
  (forall jsonData : string,
      (exists e, fst (saveMcpConfig a jsonData d) = Rejected e)
      <-> writeFault d (getClaudeConfigPath a) <> None)
  /\
  (forall (jsonData : string) e,
      fst (saveMcpConfig a jsonData d) = Rejected e ->
      e = mkError "Error" "Failed to save configuration").
Proof.
  split; [| split; [| split]].
  - unfold getMcpConfig, getMcpConfigTry, existsSync, readFile.
    destruct (fileAt d (getClaudeConfigPath a)) as [data |]; simpl negb; cbv iota.
    + destruct (readFault d (getClaudeConfigPath a)) as [e0 |]; simpl; split.
      * intros _. discriminate.
      * intros _. eexists. reflexivity.
      * intros [e H]. discriminate H.
      * intros H. contradiction.
    + rewrite stringifyText_indented. unfold writeFileStringified, writeFile.
      destruct (writeFault d (getClaudeConfigPath a)) as [e0 |]; simpl; split.
      * intros _. discriminate.
      * intros _. eexists. reflexivity.
      * intros [e H]. discriminate H.
      * intros H. contradiction.
  - intros e. unfold getMcpConfig, getMcpConfigTry, existsSync, readFile.
    destruct (fileAt d (getClaudeConfigPath a)) as [data |]; simpl negb; cbv iota.
    + destruct (readFault d (getClaudeConfigPath a)); simpl; intros H;
        [injection H as <-; reflexivity | discriminate H].
    + rewrite stringifyText_indented. unfold writeFileStringified, writeFile.
      destruct (writeFault d (getClaudeConfigPath a)); simpl; intros H;
        [injection H as <-; reflexivity | discriminate H].
  - intros jsonData. unfold saveMcpConfig, saveMcpConfigTry, writeFile.
    destruct (writeFault d (getClaudeConfigPath a)) as [e0 |]; simpl; split.
    + intros _. discriminate.
    + intros _. eexists. reflexivity.
    + intros [e H]. discriminate H.
    + intros H. contradiction.
  - intros jsonData e. unfold saveMcpConfig, saveMcpConfigTry, writeFile.
    destruct (writeFault d (getClaudeConfigPath a)); simpl; intros H;
      [injection H as <-; reflexivity | discriminate H].
Qed.

Lemma config_faults_are_masked_witness :
  let denied := mkError "Error" "EACCES: permission denied" in
  let d := mkDisk [] (fun _ => None) (fun _ => Some denied) in
  fst (getMcpConfig macApp d)
  = Rejected (mkError "Error" "Failed to read configuration") /\
  fst (saveMcpConfig macApp "{}" d)
  = Rejected (mkError "Error" "Failed to save configuration").
Proof.
  cbv zeta.
  set (d := mkDisk [] (fun _ => None)
              (fun _ => Some (mkError "Error" "EACCES: permission denied"))).
  destruct (config_faults_are_masked macApp d) as [Hget [Hgetmsg [Hsave Hsavemsg]]].
  split.
  - destruct (proj2 Hget) as [e He]; [simpl; discriminate |].
    rewrite He. f_equal. exact (Hgetmsg e He).
  - destruct (proj2 (Hsave "{}")) as [e He]; [simpl; discriminate |].
    rewrite He. f_equal. exact (Hsavemsg "{}" e He).
Defined.

(** 'get-claude-config' only reads: it never changes the disk.  On a file
    that is there it does what 'get-mcp-config' does, answer for answer;
    on a missing file it is rejected with "configuration file not found"
    behind the fixed prefix and creates nothing, where 'get-mcp-config'
    would create the file; and a fault of the read keeps its message
    behind the prefix. *)
Theorem getClaudeConfig_reads_only (a : App) (d : Disk) :
  snd (getClaudeConfig a d) = d /\
  (existsSync d (getClaudeConfigPath a) = true ->
   snd (getMcpConfig a d) = d /\
   forall v, fst (getClaudeConfig a d) = Fulfilled v
             <-> fst (getMcpConfig a d) = Fulfilled v) /\
  (existsSync d (getClaudeConfigPath a) = false ->
   fst (getClaudeConfig a d)
   = Rejected (mkError "Error"
                 "Failed to read Claude configuration: Claude desktop configuration file not found")) /\
  (forall e,
      existsSync d (getClaudeConfigPath a) = true ->
      readFault d (getClaudeConfigPath a) = Some e ->
      fst (getClaudeConfig a d)
      = Rejected (mkError "Error"
                    ("Failed to read Claude configuration: " ++ message e))).
Proof.
  unfold getClaudeConfig, getClaudeConfigTry, getMcpConfig, getMcpConfigTry,
    existsSync, readFile.
  destruct (fileAt d (getClaudeConfigPath a)) as [data |]; simpl negb; cbv iota.
  - destruct (readFault d (getClaudeConfigPath a)) as [e0 |]; simpl.
    + split; [reflexivity |]. split; [intros _; split; [reflexivity |] |].
      * intros v. split; intros H; discriminate H.
      * split; [intros H; discriminate H |].
        intros e _ H. injection H as <-. reflexivity.
    + split; [reflexivity |]. split; [intros _; split; [reflexivity |] |].
      * intros v. split; intros H; exact H.
      * split; [intros H; discriminate H |]. intros e _ H. discriminate H.
  - simpl. split; [reflexivity |]. split; [intros H; discriminate H |].
    split; [reflexivity |]. intros e H. discriminate H.
Qed.

Lemma getClaudeConfig_reads_only_witness :
  fst (getClaudeConfig macApp emptyDisk)
  = Rejected (mkError "Error"
                "Failed to read Claude configuration: Claude desktop configuration file not found")
  /\ snd (getClaudeConfig macApp emptyDisk) = emptyDisk.
Proof.
  destruct (getClaudeConfig_reads_only macApp emptyDisk) as [Hdisk [_ [Hmissing _]]].
  split; [apply Hmissing; reflexivity | exact Hdisk].
Defined.

(** * Windows and the life cycle of the application *)

Lemma createWindow_fields (a : App) (s : Shell) :
  mainWindow (createWindow a s) = Some (created s) /\
  openWindows (createWindow a s) = (openWindows s ++ [created s])%list /\
  awaitingShow (createWindow a s) = (awaitingShow s ++ [created s])%list /\
  created (createWindow a s) = S (created s) /\
  ready (createWindow a s) = ready s /\
  hasQuit (createWindow a s) = hasQuit s.
Proof.
  unfold createWindow, createMenu, emit.
  destruct (isDev a); simpl; repeat split.
Qed.

Lemma isOpen_single (w v : nat) (s : Shell) :
  openWindows s = [v] -> isOpen w s = true -> w = v.
Proof.
  unfold isOpen. intros ->. simpl. rewrite orb_false_r.
  apply Nat.eqb_eq.
Qed.

Lemma isOpen_none (w : nat) (s : Shell) :
  openWindows s = [] -> isOpen w s = false.
Proof. unfold isOpen. intros ->. reflexivity. Qed.

(** The invariant looks at the windows, [mainWindow] and the flags only. *)
Lemma shellInvariant_same_windows (a : App) (s s' : Shell) :
  mainWindow s' = mainWindow s ->
  openWindows s' = openWindows s ->
  created s' = created s ->
  ready s' = ready s ->
  hasQuit s' = hasQuit s ->
  shellInvariant a s -> shellInvariant a s'.
Proof.
  unfold shellInvariant, windowsAgree.
  intros -> -> -> -> ->. exact (fun H => H).
Qed.

(** A new window on a state without windows. *)
Lemma createWindow_invariant (a : App) (s : Shell) :
  openWindows s = [] ->
  windowsAgree (createWindow a s) /\ openWindows (createWindow a s) <> [].
Proof.
  intros Hnone.
  destruct (createWindow_fields a s) as [Hm [Ho [_ [Hc _]]]].
  rewrite Hnone, app_nil_l in Ho. split.
  - right. exists (created s). rewrite Hm, Ho, Hc. repeat split. lia.
  - rewrite Ho. discriminate.
Qed.

Lemma handleEvent_invariant (a : App) (ev : appEvent) (s : Shell) :
  shellInvariant a s -> shellInvariant a (handleEvent a ev s).
Proof.
  intros Hinv. pose proof Hinv as [Hagree [Hearly [Hquit Hheld]]].
  unfold handleEvent.
  destruct (hasQuit s) eqn:Hq; [exact Hinv |].
  destruct ev as [| | w | w | w url | |].
  - (* AppReady *)
    destruct (ready s) eqn:Hr; [exact Hinv |].
    set (s0 := emit _ s).
    assert (Hnone : openWindows s0 = []) by (apply Hearly; reflexivity).
    destruct (createWindow_invariant a s0 Hnone) as [Hag Hne].
    destruct (createWindow_fields a s0) as [_ [_ [_ [_ [_ Hhq]]]]].
    unfold shellInvariant, windowsAgree in *.
    cbn [mainWindow openWindows awaitingShow created ready hasQuit uiLog].
    rewrite Hhq. split; [exact Hag |]. split; [discriminate |].
    split; [intros H; unfold s0 in H; simpl in H; congruence |].
    intros _ _ _. exact Hne.
  - (* AppActivate *)
    destruct (ready s) eqn:Hr; cbn [andb]; [| exact Hinv].
    destruct (Nat.eqb (List.length (openWindows s)) 0) eqn:Hlen; [| exact Hinv].
    assert (Hnone : openWindows s = []).
    { apply Nat.eqb_eq in Hlen. destruct (openWindows s); [reflexivity | discriminate]. }
    destruct (createWindow_invariant a s Hnone) as [Hag Hne].
    destruct (createWindow_fields a s) as [_ [_ [_ [_ [Hrd Hhq]]]]].
    unfold shellInvariant. rewrite Hrd, Hhq, Hr, Hq.
    split; [exact Hag |]. split; [discriminate |]. split; [discriminate |].
    intros _ _ _. exact Hne.
  - (* WindowReadyToShow *)
    destruct (isOpen w s && awaits w s); [| exact Hinv].
    cbn [mainWindow served].
    destruct (mainWindow s);
      apply (shellInvariant_same_windows a s); try reflexivity; exact Hinv.
  - (* WindowClosed *)
    destruct (isOpen w s) eqn:Hopen; [| exact Hinv].
    destruct Hagree as [[Hnone _] | [v [Hone [Hmain Hfresh]]]].
    + rewrite (isOpen_none w s Hnone) in Hopen. discriminate Hopen.
    + pose proof (isOpen_single w v s Hone Hopen) as ->.
      rewrite Hone. unfold without at 1 2. simpl filter.
      rewrite Nat.eqb_refl. simpl negb. cbv iota. simpl List.length. simpl Nat.eqb.
      cbv iota. unfold windowAllClosed.
      cbn [mainWindow openWindows awaitingShow created ready hasQuit uiLog].
      destruct (String.eqb_spec (processPlatform a) "darwin") as [Hmac | Hother];
        simpl negb; cbv iota; unfold shellInvariant, windowsAgree;
        cbn [mainWindow openWindows awaitingShow created ready hasQuit uiLog];
        repeat split; try (left; split; reflexivity); try congruence.
  - (* WindowOpenRequest *)
    destruct (isOpen w s); [| exact Hinv].
    apply (shellInvariant_same_windows a s); try reflexivity; exact Hinv.
  - (* MenuLearnMore *)
    destruct (ready s); [| exact Hinv].
    apply (shellInvariant_same_windows a s); try reflexivity; exact Hinv.
  - (* MenuAbout *)
    destruct (ready s); [| exact Hinv].
    destruct (mainWindow s) eqn:Hm; [| exact Hinv].
    apply (shellInvariant_same_windows a s); try reflexivity; exact Hinv.
Qed.

Lemma initialShell_invariant (a : App) : shellInvariant a initialShell.
Proof.
  unfold shellInvariant, initialShell. simpl. repeat split; try discriminate.
  left. split; reflexivity.
Qed.

Lemma runEvents_invariant (a : App) (evs : list appEvent) (s : Shell) :
  shellInvariant a s -> shellInvariant a (runEvents a evs s).
Proof.
  revert s. induction evs as [| ev evs IH]; intros s H; [exact H |].
  simpl. apply IH, handleEvent_invariant, H.
Qed.

Lemma windows_agree_run (a : App) (evs : list appEvent) :
  windowsAgree (runEvents a evs initialShell).
Proof.
  exact (proj1 (runEvents_invariant a evs initialShell (initialShell_invariant a))).
Qed.

(** After any sequence of events, the application has at most one window
    open, and the global [mainWindow] is a reference to that window
    exactly when there is one: it is [null] when no window is open, so it
    never refers to a window that was closed. *)
Theorem windows_and_mainWindow_agree (a : App) (evs : list appEvent) :
  let s := runEvents a evs initialShell in
  (List.length (openWindows s) <= 1)%nat /\
  (mainWindow s = None <-> openWindows s = []) /\
  (forall w, mainWindow s = Some w <-> openWindows s = [w]).
Proof.
  cbv zeta.
  destruct (windows_agree_run a evs) as [[Hnone Hmain] | [v [Hone [Hmain _]]]];
    rewrite ?Hnone, ?Hone, Hmain; simpl.
  - split; [lia |]. split; [tauto |]. intros w. split; discriminate.
  - split; [lia |]. split; [split; discriminate |].
    intros w. split; intros H; injection H as <-; reflexivity.
Qed.

Lemma windows_and_mainWindow_agree_witness :
  mainWindow (runEvents macApp [AppReady; WindowClosed 0; AppActivate] initialShell)
  = Some 1%nat.
Proof.
  apply (proj2 (proj2 (windows_and_mainWindow_agree macApp
                         [AppReady; WindowClosed 0; AppActivate]))).
  reflexivity.
Defined.

(** On macOS the application never calls [app.quit()], whatever happens
    to its windows.  On any other platform, once it is ready, it is
    running exactly as long as its window is open: closing the window
    quits it. *)
Theorem quit_follows_the_platform (a : App) (evs : list appEvent) :
  let s := runEvents a evs initialShell in
  (processPlatform a = "darwin" -> hasQuit s = false) /\
  (processPlatform a <> "darwin" -> ready s = true ->
   (hasQuit s = false <-> exists w, openWindows s = [w])).
Proof.
  cbv zeta.
  destruct (runEvents_invariant a evs initialShell (initialShell_invariant a))
    as [Hagree [_ [Hquit Hheld]]].
  split.
  - intros Hmac. destruct (hasQuit _) eqn:Hq; [| reflexivity].
    destruct (Hquit eq_refl) as [_ Hne]. contradiction.
  - intros Hother Hready. split.
    + intros Hq. destruct Hagree as [[Hnone _] | [w [Hone _]]].
      * exfalso. exact (Hheld Hother Hready Hq Hnone).
      * exists w. exact Hone.
    + intros [w Hone]. destruct (hasQuit _) eqn:Hq; [| reflexivity].
      destruct (Hquit eq_refl) as [Hnone _]. congruence.
Qed.

Lemma quit_follows_the_platform_witness :
  hasQuit (runEvents macApp [AppReady; WindowClosed 0] initialShell) = false /\
  hasQuit (runEvents linuxApp [AppReady; WindowClosed 0] initialShell) = true.
Proof.
  split.
  - apply (proj1 (quit_follows_the_platform macApp [AppReady; WindowClosed 0])).
    reflexivity.
  - destruct (hasQuit (runEvents linuxApp [AppReady; WindowClosed 0] initialShell))
      eqn:Hq; [reflexivity |].
    destruct (proj1 (proj2 (quit_follows_the_platform linuxApp
                              [AppReady; WindowClosed 0])
                       ltac:(discriminate) eq_refl) Hq) as [w Hw].
    discriminate Hw.
Defined.

(** ** What main.ts itself does about the developer tools *)

Lemma handleEvent_production_log (a : App) (ev : appEvent) (s : Shell) :
  isDev a = false ->
  Forall (fun e => developmentOnly e = false) (uiLog s) ->
  Forall (fun e => developmentOnly e = false) (uiLog (handleEvent a ev s)).
Proof.
  intros Hprod Hlog.
  assert (Hemit : forall es s0,
             Forall (fun e => developmentOnly e = false) (uiLog s0) ->
             Forall (fun e => developmentOnly e = false) es ->
             Forall (fun e => developmentOnly e = false) (uiLog (emit es s0))).
  { intros es s0 H0 Hes. unfold emit. simpl. apply Forall_app. split; assumption. }
  assert (Hwin : forall s0,
             Forall (fun e => developmentOnly e = false) (uiLog s0) ->
             Forall (fun e => developmentOnly e = false) (uiLog (createWindow a s0))).
  { intros s0 H0. unfold createWindow, createMenu. rewrite Hprod.
    apply Hemit; [| repeat constructor].
    apply Hemit; [| repeat constructor].
    apply Hemit; [| repeat constructor].
    simpl. apply Forall_app. split; [exact H0 | repeat constructor]. }
  unfold handleEvent.
  destruct (hasQuit s); [exact Hlog |].
  destruct ev as [| | w | w | w url | |].
  - destruct (ready s); [exact Hlog |]. cbn [uiLog].
    apply Hwin, Hemit; [exact Hlog | repeat constructor].
  - destruct (ready s && _); [apply Hwin |]; exact Hlog.
  - destruct (isOpen w s && awaits w s); [| exact Hlog].
    cbn [mainWindow served].
    destruct (mainWindow s); [apply Hemit; [exact Hlog | repeat constructor] | exact Hlog].
  - destruct (isOpen w s); [| exact Hlog].
    destruct (Nat.eqb _ 0); [| exact Hlog].
    unfold windowAllClosed. destruct (negb _); simpl; [| exact Hlog].
    apply Forall_app. split; [exact Hlog | repeat constructor].
  - destruct (isOpen w s); [apply Hemit; [exact Hlog | repeat constructor] | exact Hlog].
  - destruct (ready s); [apply Hemit; [exact Hlog | repeat constructor] | exact Hlog].
  - destruct (ready s); [| exact Hlog].
    destruct (mainWindow s); [apply Hemit; [exact Hlog | repeat constructor] | exact Hlog].
Qed.

(** Every menu the application installs is the template of [createMenu]. *)
Lemma handleEvent_menus (a : App) (ev : appEvent) (s : Shell) :
  (forall t, In (SetApplicationMenu t) (uiLog s) -> t = menuTemplate) ->
  forall t, In (SetApplicationMenu t) (uiLog (handleEvent a ev s)) ->
            t = menuTemplate.
Proof.
  intros Hlog.
  assert (Hemit : forall es s0,
             (forall t, In (SetApplicationMenu t) (uiLog s0) -> t = menuTemplate) ->
             (forall t, In (SetApplicationMenu t) es -> t = menuTemplate) ->
             forall t, In (SetApplicationMenu t) (uiLog (emit es s0)) ->
                       t = menuTemplate).
  { intros es s0 H0 Hes t Hin. unfold emit in Hin. simpl in Hin.
    apply in_app_or in Hin. destruct Hin; [apply H0 | apply Hes]; assumption. }
  assert (Hnone : forall es,
             Forall (fun e => match e with SetApplicationMenu _ => False | _ => True end) es ->
             forall t, In (SetApplicationMenu t) es -> t = menuTemplate).
  { intros es Hes t Hin. rewrite Forall_forall in Hes.
    destruct (Hes _ Hin). }
  assert (Hwin : forall s0,
             (forall t, In (SetApplicationMenu t) (uiLog s0) -> t = menuTemplate) ->
             forall t, In (SetApplicationMenu t) (uiLog (createWindow a s0)) ->
                       t = menuTemplate).
  { intros s0 H0. unfold createWindow, createMenu.
    apply Hemit.
    - apply Hemit; [| apply Hnone; repeat constructor].
      destruct (isDev a);
        (apply Hemit; [| apply Hnone; repeat constructor]);
        simpl; intros t Hin; apply in_app_or in Hin;
        (destruct Hin as [Hin | Hin]; [apply H0; exact Hin |]);
        (destruct Hin as [Hin | []]; discriminate Hin).
    - intros t [Hin | []]. injection Hin as <-. reflexivity. }
  unfold handleEvent.
  destruct (hasQuit s); [exact Hlog |].
  destruct ev as [| | w | w | w url | |].
  - destruct (ready s); [exact Hlog |]. cbn [uiLog].
    apply Hwin, Hemit; [exact Hlog | apply Hnone; repeat constructor].
  - destruct (ready s && _); [apply Hwin |]; exact Hlog.
  - destruct (isOpen w s && awaits w s); [| exact Hlog].
    cbn [mainWindow served].
    destruct (mainWindow s);
      [apply Hemit; [exact Hlog | apply Hnone; repeat constructor] | exact Hlog].
  - destruct (isOpen w s); [| exact Hlog].
    destruct (Nat.eqb _ 0); [| exact Hlog].
    unfold windowAllClosed. destruct (negb _); simpl; [| exact Hlog].
    intros t Hin. apply in_app_or in Hin.
    destruct Hin as [Hin | [Hin | []]]; [apply Hlog; exact Hin | discriminate Hin].
  - destruct (isOpen w s);
      [apply Hemit; [exact Hlog | apply Hnone; repeat constructor] | exact Hlog].
  - destruct (ready s);
      [apply Hemit; [exact Hlog | apply Hnone; repeat constructor] | exact Hlog].
  - destruct (ready s); [| exact Hlog].
    destruct (mainWindow s);
      [apply Hemit; [exact Hlog | apply Hnone; repeat constructor] | exact Hlog].
Qed.

(** In a production build ([isDev] false) main.ts itself never calls
    [loadURL] or [openDevTools] and never makes a window with web
    security off, whatever its listeners receive.  The developer tools
    are not out of reach for that: in every build, production or not,
    each menu main.ts installs is the one template, whose View menu has
    the [toggleDevTools] role. *)
Theorem production_calls_and_menu (a : App) (evs : list appEvent) :
  (isDev a = false ->
   Forall (fun e => developmentOnly e = false)
          (uiLog (runEvents a evs initialShell)))
  /\
  (forall t,
      In (SetApplicationMenu t) (uiLog (runEvents a evs initialShell)) ->
      t = menuTemplate /\ offersRole "toggleDevTools" t = true).
Proof.
  split.
  - intros Hprod.
    assert (H : forall s,
               Forall (fun e => developmentOnly e = false) (uiLog s) ->
               Forall (fun e => developmentOnly e = false) (uiLog (runEvents a evs s))).
    { induction evs as [| ev evs IH]; intros s Hs; [exact Hs |].
      simpl. apply IH, handleEvent_production_log; assumption. }
    apply H. constructor.
  - assert (H : forall s,
               (forall t, In (SetApplicationMenu t) (uiLog s) -> t = menuTemplate) ->
               forall t, In (SetApplicationMenu t) (uiLog (runEvents a evs s)) ->
                         t = menuTemplate).
    { induction evs as [| ev evs IH]; intros s Hs; [exact Hs |].
      simpl. apply IH, handleEvent_menus, Hs. }
    intros t Hin.
    assert (Ht : t = menuTemplate) by (apply (H initialShell); [intros t0 [] | exact Hin]).
    subst t. split; reflexivity.
Qed.

Lemma production_calls_and_menu_witness :
  Forall (fun e => developmentOnly e = false)
         (uiLog (runEvents linuxApp [AppReady; WindowReadyToShow 0; MenuAbout]
                   initialShell)) /\
  offersRole "toggleDevTools" menuTemplate = true.
Proof.
  destruct (production_calls_and_menu linuxApp
              [AppReady; WindowReadyToShow 0; MenuAbout]) as [Hcalls Hmenu].
  split.
  - apply Hcalls. reflexivity.
  - apply (Hmenu menuTemplate). simpl. tauto.
Defined.

(** ** Showing a window *)

Lemma showCount_app (w : nat) (l l' : list uiEffect) :
  showCount w (l ++ l') = (showCount w l + showCount w l')%nat.
Proof. unfold showCount. rewrite filter_app, length_app. reflexivity. Qed.

Lemma existsb_without (w v : nat) (l : list nat) :
  existsb (Nat.eqb w) (without v l)
  = negb (Nat.eqb v w) && existsb (Nat.eqb w) l.
Proof.
  unfold without. induction l as [| x l IH]; simpl.
  - rewrite andb_false_r. reflexivity.
  - destruct (Nat.eqb_spec v x) as [Hvx | Hvx]; simpl; rewrite IH;
      destruct (Nat.eqb_spec v w) as [Hvw | Hvw];
      destruct (Nat.eqb_spec w x) as [Hwx | Hwx];
      simpl; try reflexivity; try congruence.
Qed.

(** A step that shows nothing, registers no listener and creates no
    window keeps the invariant of the shows. *)
Lemma showInvariant_quiet (s s' : Shell) :
  (forall w, awaits w s' = true -> awaits w s = true) ->
  created s' = created s ->
  (forall w, showCount w (uiLog s') = showCount w (uiLog s)) ->
  showInvariant s -> showInvariant s'.
Proof.
  intros Haw Hc Hlog [H1 [H2 H3]]. unfold showInvariant.
  split; [| split].
  - intros w Hw. rewrite Hlog. apply H1, Haw, Hw.
  - intros w. rewrite Hlog. apply H2.
  - intros w Hw. rewrite Hc in Hw. destruct (H3 w Hw) as [H0 Hno].
    split; [rewrite Hlog; exact H0 |].
    destruct (awaits w s') eqn:E; [| reflexivity].
    rewrite (Haw w E) in Hno. discriminate Hno.
Qed.

Lemma createWindow_showCount (a : App) (s : Shell) (w : nat) :
  showCount w (uiLog (createWindow a s)) = showCount w (uiLog s).
Proof.
  unfold createWindow, createMenu, emit.
  destruct (isDev a); cbn [uiLog]; unfold showCount;
    rewrite !filter_app, !length_app; simpl; lia.
Qed.

Lemma createWindow_showInvariant (a : App) (s : Shell) :
  showInvariant s -> showInvariant (createWindow a s).
Proof.
  intros [H1 [H2 H3]].
  destruct (createWindow_fields a s) as [_ [_ [Haw [Hc _]]]].
  assert (Hawaits : forall w, awaits w (createWindow a s)
                              = awaits w s || Nat.eqb w (created s)).
  { intros w. unfold awaits. rewrite Haw, existsb_app. simpl.
    rewrite orb_false_r. reflexivity. }
  unfold showInvariant. split; [| split].
  - intros w Hw. rewrite createWindow_showCount.
    rewrite Hawaits in Hw. apply orb_true_iff in Hw. destruct Hw as [Hw | Hw].
    + apply H1, Hw.
    + apply Nat.eqb_eq in Hw. subst w. apply (H3 (created s)). lia.
  - intros w. rewrite createWindow_showCount. apply H2.
  - intros w Hw. rewrite Hc in Hw. rewrite createWindow_showCount, Hawaits.
    destruct (H3 w) as [H0 Hno]; [lia |]. split; [exact H0 |].
    rewrite Hno. simpl. apply Nat.eqb_neq. lia.
Qed.

Lemma handleEvent_showInvariant (a : App) (ev : appEvent) (s : Shell) :
  shellInvariant a s ->
  showInvariant s -> showInvariant (handleEvent a ev s).
Proof.
  intros [Hagree _] Hshow. pose proof Hshow as [H1 [H2 H3]].
  unfold handleEvent.
  destruct (hasQuit s); [exact Hshow |].
  destruct ev as [| | w | w | w url | |].
  - (* AppReady *)
    destruct (ready s); [exact Hshow |].
    set (s0 := emit _ s).
    assert (H0 : showInvariant s0).
    { apply (showInvariant_quiet s); try reflexivity; [tauto | | exact Hshow].
      intros w. unfold s0, emit. cbn [uiLog]. unfold showCount. rewrite filter_app, length_app. simpl. lia. }
    apply (showInvariant_quiet (createWindow a s0)); try reflexivity;
      [tauto | apply createWindow_showInvariant, H0].
  - (* AppActivate *)
    destruct (ready s && _); [apply createWindow_showInvariant |]; exact Hshow.
  - (* WindowReadyToShow *)
    destruct (isOpen w s) eqn:Hopen; cbn [andb]; [| exact Hshow].
    destruct (awaits w s) eqn:Haw; [| exact Hshow].
    cbn [mainWindow served].
    destruct Hagree as [[Hnone _] | [v [Hone [Hmain Hfresh]]]].
    + rewrite (isOpen_none w s Hnone) in Hopen. discriminate Hopen.
    + pose proof (isOpen_single w v s Hone Hopen) as ->.
      rewrite Hmain.
      assert (Hawaits : forall x, awaits x (emit [Show v] (served v s))
                                  = negb (Nat.eqb v x) && awaits x s).
      { intros x. unfold awaits, emit, served. cbn [awaitingShow].
        apply existsb_without. }
      assert (Hcount : forall x, showCount x (uiLog (emit [Show v] (served v s)))
                                 = (showCount x (uiLog s)
                                    + if Nat.eqb v x then 1 else 0)%nat).
      { intros x. unfold emit, served. cbn [uiLog]. rewrite showCount_app.
        unfold showCount at 2. simpl. destruct (Nat.eqb v x); reflexivity. }
      unfold showInvariant. split; [| split].
      * intros x Hx. rewrite Hawaits in Hx. apply andb_true_iff in Hx.
        destruct Hx as [Hne Hx]. rewrite Hcount.
        apply negb_true_iff in Hne. rewrite Hne, (H1 x Hx). reflexivity.
      * intros x. rewrite Hcount. destruct (Nat.eqb_spec v x) as [<- | Hne].
        -- rewrite (H1 v Haw). lia.
        -- pose proof (H2 x). lia.
      * intros x Hx. cbn [created emit served] in Hx.
        destruct (H3 x Hx) as [H0 Hno]. rewrite Hcount, Hawaits, H0, Hno.
        destruct (Nat.eqb_spec v x); [lia |]. split; [reflexivity |].
        apply andb_false_r.
  - (* WindowClosed *)
    destruct (isOpen w s); [| exact Hshow].
    set (s1 := mkShell _ _ _ _ _ _ _).
    assert (Hs1 : showInvariant s1).
    { apply (showInvariant_quiet s); try reflexivity; [| exact Hshow].
      intros x. unfold awaits, s1. cbn [awaitingShow]. rewrite existsb_without.
      intros Hx. apply andb_true_iff in Hx. tauto. }
    destruct (Nat.eqb _ 0); [| exact Hs1].
    unfold windowAllClosed. destruct (negb _); [| exact Hs1].
    apply (showInvariant_quiet s1); try reflexivity; [tauto | | exact Hs1].
    intros x. cbn [uiLog]. unfold showCount. rewrite filter_app, length_app. simpl. lia.
  - (* WindowOpenRequest *)
    destruct (isOpen w s); [| exact Hshow].
    apply (showInvariant_quiet s); try reflexivity; [tauto | | exact Hshow].
    intros x. unfold emit. cbn [uiLog]. unfold showCount. rewrite filter_app, length_app. simpl. lia.
  - (* MenuLearnMore *)
    destruct (ready s); [| exact Hshow].
    apply (showInvariant_quiet s); try reflexivity; [tauto | | exact Hshow].
    intros x. unfold emit. cbn [uiLog]. unfold showCount. rewrite filter_app, length_app. simpl. lia.
  - (* MenuAbout *)
    destruct (ready s); [| exact Hshow].
    destruct (mainWindow s); [| exact Hshow].
    apply (showInvariant_quiet s); try reflexivity; [tauto | | exact Hshow].
    intros x. unfold emit. cbn [uiLog]. unfold showCount. rewrite filter_app, length_app. simpl. lia.
Qed.

Lemma runEvents_showInvariant (a : App) (evs : list appEvent) (s : Shell) :
  shellInvariant a s -> showInvariant s ->
  showInvariant (runEvents a evs s).
Proof.
  revert s. induction evs as [| ev evs IH]; intros s Hs Hshow; [exact Hshow |].
  simpl. apply IH.
  - apply handleEvent_invariant, Hs.
  - apply handleEvent_showInvariant; assumption.
Qed.

Lemma initialShell_showInvariant : showInvariant initialShell.
Proof.
  unfold showInvariant, initialShell, awaits, showCount. simpl.
  split; [intros w _; reflexivity |]. split; [intros w; lia |].
  intros w _. split; reflexivity.
Qed.

(** The listeners that use the global [mainWindow] always reach the
    window that is open.  When an open window reports for the first time
    that it is ready to show, that window is the one shown, and its
    [once] listener is gone: a second report changes nothing, and no
    window is ever shown twice.  The About entry runs its script in the
    open window, and does nothing at all when no window is open. *)
Theorem mainWindow_is_the_open_window (a : App) (evs : list appEvent) :
  let s := runEvents a evs initialShell in
  (forall w, (showCount w (uiLog s) <= 1)%nat) /\
  (hasQuit s = false ->
   (forall w, isOpen w s = true ->
      (awaits w s = true ->
       handleEvent a (WindowReadyToShow w) s = emit [Show w] (served w s) /\
       handleEvent a (WindowReadyToShow w) (emit [Show w] (served w s))
       = emit [Show w] (served w s)) /\
      (awaits w s = false -> handleEvent a (WindowReadyToShow w) s = s) /\
      (ready s = true ->
       handleEvent a MenuAbout s
       = emit [ExecuteJavaScript w (aboutScript a)] s)) /\
   (openWindows s = [] -> handleEvent a MenuAbout s = s)).
Proof.
  cbv zeta.
  pose proof (windows_agree_run a evs) as Hagree.
  pose proof (runEvents_showInvariant a evs initialShell
                (initialShell_invariant a) initialShell_showInvariant)
    as [_ [Honce _]].
  split; [exact Honce |].
  intros Hq. split.
  - intros w Hopen.
    destruct Hagree as [[Hnone _] | [v [Hone [Hmain _]]]].
    + rewrite (isOpen_none w _ Hnone) in Hopen. discriminate Hopen.
    + pose proof (isOpen_single w v _ Hone Hopen) as ->.
      split; [| split].
      * intros Haw. split.
        -- unfold handleEvent. rewrite Hq, Hopen, Haw. cbn [andb mainWindow served].
           rewrite Hmain. reflexivity.
        -- unfold handleEvent. cbn [hasQuit emit served]. rewrite Hq.
           replace (isOpen v (emit [Show v] (served v (runEvents a evs initialShell))))
             with true by (symmetry; exact Hopen).
           replace (awaits v (emit [Show v] (served v (runEvents a evs initialShell))))
             with false; [reflexivity |].
           unfold awaits, emit, served. cbn [awaitingShow].
           rewrite existsb_without, Nat.eqb_refl. reflexivity.
      * intros Haw. unfold handleEvent. rewrite Hq, Hopen, Haw. reflexivity.
      * intros Hr. unfold handleEvent. rewrite Hq, Hr, Hmain. reflexivity.
  - intros Hnone. unfold handleEvent. rewrite Hq.
    destruct Hagree as [[_ Hmain] | [v [Hone _]]]; [| congruence].
    rewrite Hmain. destruct (ready _); reflexivity.
Qed.

Lemma mainWindow_is_the_open_window_witness :
  let s := runEvents macApp [AppReady; WindowClosed 0; AppActivate] initialShell in
  handleEvent macApp (WindowReadyToShow 1) s = emit [Show 1] (served 1 s) /\
  handleEvent macApp (WindowReadyToShow 1) (emit [Show 1] (served 1 s))
  = emit [Show 1] (served 1 s).
Proof.
  cbv zeta.
  apply (proj1 (proj2 (mainWindow_is_the_open_window macApp
                         [AppReady; WindowClosed 0; AppActivate]) eq_refl)
           1%nat eq_refl).
  reflexivity.
Defined.

(** * Where the error field comes from *)

(** An [error] in a result of the handler has one of two sources: the
    command is missing, and the text is "Command not available"; or a
    fault was thrown outside the probe, and the text is its message.
    Nothing the probe does ever puts a text there. *)
Theorem error_field_sources
    (h : Host) (serverId : string) (server : value)
    (r : HealthCheckResult) (m : string) :
  fst (pingServer h serverId server) = Fulfilled r ->
  error r = Some m ->
  (commandUnavailable h server /\ m = "Command not available") \/
  (exists e, faultOutsideProbe h server e /\ m = message e).
Proof.
  rewrite pingServer_cases, (probe_settled h server).
  unfold commandUnavailable, faultOutsideProbe.
  destruct (Get server p_command) as [cmd | e] eqn:Hcmd.
  - destruct (exec h (resolverLine h cmd)) as [e | [err |] |] eqn:Hexec; simpl.
    + intros H Hm. injection H as <-. injection Hm as <-.
      right. exists e. split; [| reflexivity].
      right. exists cmd. split; [reflexivity | exact Hexec].
    + intros H Hm. injection H as <-. injection Hm as <-.
      left. split; [| reflexivity].
      exists cmd, err. split; [reflexivity | exact Hexec].
    + destruct (inferPort server) as [port | e0].
      * destruct (thrown (netConnect h port "localhost")).
        -- intros H Hm. injection H as <-. discriminate Hm.
        -- destruct (emitted (netConnect h port "localhost"));
             intros H Hm; [discriminate H | injection H as <-; discriminate Hm].
      * intros H Hm. injection H as <-. discriminate Hm.
    + intros H. discriminate H.
  - simpl. intros H Hm. injection H as <-. injection Hm as <-.
    right. exists e. split; [left; reflexivity | reflexivity].
Qed.

Lemma error_field_sources_witness :
  exists e,
    faultOutsideProbe (nodeHost ["node"] []) VUndefined e /\
    "Cannot read properties of undefined (reading 'command')" = message e.
Proof.
  destruct (error_field_sources (nodeHost ["node"] []) "srv" VUndefined
              (mkResult false
                 (Some "Cannot read properties of undefined (reading 'command')"))
              "Cannot read properties of undefined (reading 'command')"
              eq_refl eq_refl) as [[[cmd [err [Hcmd _]]] _] | Hfault].
  - discriminate Hcmd.
  - exact Hfault.
Defined.

Lemma pingServer_pending_iff_witness :
  let h :=
    mkHost "linux" (fun _ => ExecCallback None)
      (fun _ _ => mkConnectOutcome None []) in
  fst (pingServer h "srv" (toValue (mkServer "node" [] None))) = Pending.
Proof.
  cbv zeta.
  apply (proj2 (pingServer_pending_iff _ "srv" (toValue (mkServer "node" [] None)))).
  exists (VString "node"). split; [reflexivity |].
  right. split; [reflexivity |].
  exists (Num 8080). repeat split.
Defined.

Lemma pingServer_success_iff_witness :
  let h := nodeHost ["node"] [3000] in
  let server := toValue (mkServer "node" ["--port"; "3000"] None) in
  exists r, fst (pingServer h "srv" server) = Fulfilled r /\ success r = true.
Proof.
  cbv zeta.
  apply (proj2 (pingServer_success_iff (nodeHost ["node"] [3000]) "srv"
                  (toValue (mkServer "node" ["--port"; "3000"] None)))).
  split.
  - exists (VString "node"). split; reflexivity.
  - exists (Num 3000), []. repeat split.
Defined.

Lemma probe_called_iff_available_witness :
  In ProbeCalled
     (snd (pingServer (nodeHost ["node"] []) "srv"
             (toValue (mkServer "node" [] None)))).
Proof.
  apply (proj2 (proj1 (probe_called_iff_available (nodeHost ["node"] []) "srv"
                         (toValue (mkServer "node" [] None))))).
  exists (VString "node"). split; reflexivity.
Defined.

